(** * Air cargo planning problem: the transition model of [my_air_cargo_problems.py]

    A shallow embedding of [AirCargoProblem] (grounding of the Load, Unload
    and Fly schemas, [actions], [result], [goal_test] and the heuristics
    [h_1] and [h_ignore_preconditions]) together with the scenario
    [air_cargo_p1], and the properties of the design document that concern
    them.

    Python lists are lists, the T/F state string is a list of booleans,
    exceptions are the [Raise] branch of [Outcome], and the Python sets of
    strings built by [h_ignore_preconditions] are [gset string]. *)

From Stdlib Require Import Ascii.
From stdpp Require Import base list strings gmap.

Local Open Scope string_scope.
Local Open Scope list_scope.

(** ** Fluents, the imported [lp_utils] codec and [aimacode] classes *)

(** Fluents are the ground expressions the module builds with [expr]:
    [At(x, l)] and [In(c, p)], over object names. Two fluents are equal when
    operator and arguments are ([Expr.__eq__]). *)
Inductive Fluent : Type :=
  | At (mobile location : string)
  | In (cargo plane : string).

Global Instance Fluent_eq_dec : EqDecision Fluent.
Proof. solve_decision. Defined.

Definition fluent_op (f : Fluent) : string :=
  match f with At _ _ => "At" | In _ _ => "In" end.

Definition fluent_args (f : Fluent) : list string :=
  match f with At x l => [x; l] | In c p => [c; p] end.

Definition fluent_to_sum (f : Fluent) : string * string + string * string :=
  match f with At x l => inl (x, l) | In c p => inr (c, p) end.

Definition fluent_of_sum (v : string * string + string * string) : Fluent :=
  match v with inl (x, l) => At x l | inr (c, p) => In c p end.

Global Instance Fluent_countable : Countable Fluent.
Proof.
  apply (inj_countable' fluent_to_sum fluent_of_sum).
  intros []; reflexivity.
Defined.

(** [str] of a Python tuple of symbols, each printed as its name (what
    [Expr.__repr__] gives for a symbol that is an identifier): [()], [(x,)],
    [(x, y, z)]. *)
Definition py_tuple_str (args : list string) : string :=
  match args with
  | [] => "()"
  | [x] => "(" +:+ x +:+ ",)"
  | _ => "(" +:+ String.concat ", " args +:+ ")"
  end.

(** ['{}{!s}'.format(op, args)] *)
Definition py_format (op : string) (args : list string) : string :=
  op +:+ py_tuple_str args.

(** [lp_utils.FluentState]: the positive and the negative fluents. *)
Record FluentState : Type := mkFluentState {
  pos : list Fluent;
  neg : list Fluent
}.

(** A state is the vector of truth values parallel to the vocabulary
    (the T/F string of the source). *)
Abbreviation State := (list bool).

(** [aimacode.planning.Action]: name and arguments of the action expression,
    the two precondition lists and the two effect lists. *)
Record Action : Type := mkAction {
  name : string;
  args : list string;
  precond_pos : list Fluent;
  precond_neg : list Fluent;
  effect_add : list Fluent;
  effect_rem : list Fluent
}.

Global Instance Action_eq_dec : EqDecision Action.
Proof. solve_decision. Defined.

(** One line of the message of the exception of [result]: name and arguments
    of an allowed action, and whether each equals that of the attempted
    action. (The message ends each line with the comparison of the two
    action objects themselves; objects have no identity here, so that last
    column is not represented.) *)
Definition AllowedRow : Type := (string * list string * bool * bool)%type.

(** The exceptions: the one [encode_state] raises on a vocabulary fluent
    that is in neither polarity list, and the one [result] raises, with the
    data its message is formatted from. *)
Inductive Error : Type :=
  | EncodingError
  | InvalidActionError (attempted_name : string) (attempted_args : list string)
                       (allowed : list AllowedRow).

Inductive Outcome (A : Type) : Type :=
  | Ok (a : A)
  | Raise (e : Error).
Global Arguments Ok {A} a.
Global Arguments Raise {A} e.

(** An exception raised by a call propagates through the caller. *)
Global Instance Outcome_bind : MBind Outcome := λ A B k m,
  match m with
  | Ok a => k a
  | Raise e => Raise e
  end.

(** Modelled from the spec: [lp_utils.encode_state], which is imported by the
    module and not part of it. For each vocabulary position the value is
    true iff the fluent is in the positive list; a vocabulary fluent absent
    from both lists is an [EncodingError]. *)
Fixpoint encode_state (fs : FluentState) (fluent_map : list Fluent) : Outcome State :=
  match fluent_map with
  | [] => Ok []
  | fluent :: rest =>
      if decide (fluent ∈ pos fs) then
        tf ← encode_state fs rest; Ok (true :: tf)
      else if decide (fluent ∈ neg fs) then
        tf ← encode_state fs rest; Ok (false :: tf)
      else Raise EncodingError
  end.

(** Modelled from the spec: [lp_utils.decode_state], which is imported by the
    module and not part of it. The vocabulary is partitioned by the values
    of the vector, position by position; vector and vocabulary are
    parallel, and positions beyond the shorter of the two are not read. *)
Fixpoint decode_state (state : State) (fluent_map : list Fluent) : FluentState :=
  match state, fluent_map with
  | b :: state', fluent :: rest =>
      let fs := decode_state state' rest in
      if b then mkFluentState (fluent :: pos fs) (neg fs)
      else mkFluentState (pos fs) (fluent :: neg fs)
  | _, _ => mkFluentState [] []
  end.

(** Modelled from the spec: the fact store [aimacode.logic.PropKB], used by
    [goal_test] for a membership check only. Telling it the conjunction of
    the positive fluents ([FluentState.pos_sentence]) adds each conjunct to
    its clauses. *)
Record PropKB : Type := mkPropKB { clauses : list Fluent }.

Definition pos_sentence (fs : FluentState) : list Fluent := pos fs.

Definition tell (kb : PropKB) (conjuncts : list Fluent) : PropKB :=
  mkPropKB (clauses kb ++ conjuncts).

(** [aimacode.search.Node], of which the heuristics read the state only. *)
Record Node : Type := mkNode { state : State }.

(** ** [AirCargoProblem] *)

Record AirCargoProblem : Type := mkAirCargoProblem {
  state_map : list Fluent;
  initial_state_TF : State;
  goal : list Fluent;
  cargos : list string;
  planes : list string;
  airports : list string;
  actions_list : list Action
}.

(** The bodies of the three loops of [get_actions]. *)
Definition Load (cargo plane airport : string) : Action :=
  let precond_pos := [At plane airport; At cargo airport] in
  let precond_neg := [] in
  let effect_pos := [In cargo plane] in
  let effect_neg := [At cargo airport] in
  mkAction "Load" [cargo; plane; airport] precond_pos precond_neg effect_pos effect_neg.

Definition Unload (cargo plane airport : string) : Action :=
  let precond_pos := [At plane airport; In cargo plane] in
  let precond_neg := [] in
  let effect_pos := [At cargo airport] in
  let effect_neg := [In cargo plane] in
  mkAction "Unload" [cargo; plane; airport] precond_pos precond_neg effect_pos effect_neg.

Definition Fly (p fr to : string) : Action :=
  let precond_pos := [At p fr] in
  let precond_neg := [] in
  let effect_add := [At p to] in
  let effect_rem := [At p fr] in
  mkAction "Fly" [p; fr; to] precond_pos precond_neg effect_add effect_rem.

Definition load_actions (cargos planes airports : list string) : list Action :=
  airport ← airports; plane ← planes; cargo ← cargos; [Load cargo plane airport].

Definition unload_actions (cargos planes airports : list string) : list Action :=
  airport ← airports; plane ← planes; cargo ← cargos; [Unload cargo plane airport].

Definition fly_actions (planes airports : list string) : list Action :=
  fr ← airports; to ← airports;
  if decide (fr ≠ to) then p ← planes; [Fly p fr to] else [].

Definition get_actions (cargos planes airports : list string) : list Action :=
  load_actions cargos planes airports ++ unload_actions cargos planes airports
    ++ fly_actions planes airports.

(** [AirCargoProblem.__init__]. The grounding it runs builds every fluent
    and action expression with [expr] from the object names; the embedding
    takes each name as the symbol of that name, which is what [expr] gives
    for the names it reads as symbols (see [expr_symbol]). For other names
    the source parses the formatted string as another expression or raises
    inside [expr]; statements that conclude that the constructor returns a
    problem are made for names that are symbols. *)
Definition AirCargoProblem_init (cargos planes airports : list string)
    (initial : FluentState) (goal : list Fluent) : Outcome AirCargoProblem :=
  let state_map := pos initial ++ neg initial in
  initial_state_TF ← encode_state initial state_map;
  Ok (mkAirCargoProblem state_map initial_state_TF goal cargos planes airports
        (get_actions cargos planes airports)).

(** The two loops of [permissible], each leaving with [False] at the first
    precondition that is not in the list it is looked up in. *)
Fixpoint all_in (preconds : list Fluent) (fluents : list Fluent) : bool :=
  match preconds with
  | [] => true
  | precond :: rest =>
      if decide (precond ∈ fluents) then all_in rest fluents else false
  end.

Definition permissible (self : AirCargoProblem) (action : Action) (st : State) : bool :=
  if all_in (precond_pos action) (pos (decode_state st (state_map self))) then
    all_in (precond_neg action) (neg (decode_state st (state_map self)))
  else false.

(** [AirCargoProblem.actions] *)
Definition actions (self : AirCargoProblem) (st : State) : list Action :=
  filter (λ a, permissible self a st) (actions_list self).

Definition action_string (a : Action) : string := py_format (name a) (args a).

Definition allowed_row (action a : Action) : AllowedRow :=
  (name a, args a, bool_decide (name a = name action),
   bool_decide (args a = args action)).

(** [AirCargoProblem.result] *)
Definition result (self : AirCargoProblem) (st : State) (action : Action) : Outcome State :=
  let available_action_strings := action_string <$> actions self st in
  let action_str := action_string action in
  let decoded_state := decode_state st (state_map self) in
  if decide (action_str ∈ available_action_strings) then
    let new_state :=
      mkFluentState
        (filter (λ f, f ∉ effect_rem action) (pos decoded_state) ++ effect_add action)
        (filter (λ f, f ∉ effect_add action) (neg decoded_state) ++ effect_rem action) in
    encode_state new_state (state_map self)
  else
    Raise (InvalidActionError (name action) (args action)
             (allowed_row action <$> actions self st)).

(** The loop of [goal_test] over the goal clauses. *)
Fixpoint all_clauses_in (goal_clauses : list Fluent) (kb : PropKB) : bool :=
  match goal_clauses with
  | [] => true
  | clause :: rest =>
      if decide (clause ∈ clauses kb) then all_clauses_in rest kb else false
  end.

(** [AirCargoProblem.goal_test] *)
Definition goal_test (self : AirCargoProblem) (st : State) : bool :=
  let kb := tell (mkPropKB []) (pos_sentence (decode_state st (state_map self))) in
  all_clauses_in (goal self) kb.

(** [AirCargoProblem.h_1] *)
Definition h_1 (self : AirCargoProblem) (node : Node) : nat :=
  let h_const := 1 in h_const.

Definition fluent_string (f : Fluent) : string :=
  py_format (fluent_op f) (fluent_args f).

(** [AirCargoProblem.h_ignore_preconditions]; the [lru_cache] around it
    does not change the value of this pure function. *)
Definition h_ignore_preconditions (self : AirCargoProblem) (node : Node) : nat :=
  let negative_states := neg (decode_state (state node) (state_map self)) in
  let negative_state_strings : gset string :=
    list_to_set (fluent_string <$> negative_states) in
  let goal_state_strings : gset string :=
    list_to_set (fluent_string <$> goal self) in
  size (negative_state_strings ∩ goal_state_strings).

(** [air_cargo_p1] *)
Definition air_cargo_p1 : Outcome AirCargoProblem :=
  let cargos := ["C1"; "C2"] in
  let planes := ["P1"; "P2"] in
  let airports := ["JFK"; "SFO"] in
  let pos := [At "C1" "SFO"; At "C2" "JFK"; At "P1" "SFO"; At "P2" "JFK"] in
  let neg := [At "C1" "JFK"; At "C2" "SFO"; At "P1" "JFK"; At "P2" "SFO";
              In "C1" "P1"; In "C1" "P2"; In "C2" "P1"; In "C2" "P2"] in
  let init := mkFluentState pos neg in
  let goal := [At "C1" "JFK"; At "C2" "SFO"] in
  AirCargoProblem_init cargos planes airports init goal.

(** The problem [air_cargo_p1] returns (its construction does not raise,
    see [air_cargo_p1_ok]). *)
Definition p1 : AirCargoProblem :=
  match air_cargo_p1 with
  | Ok self => self
  | Raise _ => mkAirCargoProblem [] [] [] [] [] [] []
  end.

(** Applying a sequence of actions from a state, each to the result of the
    one before; the first exception ends the run. *)
Fixpoint run (self : AirCargoProblem) (st : State) (plan : list Action) : Outcome State :=
  match plan with
  | [] => Ok st
  | action :: rest => st' ← result self st action; run self st' rest
  end.

(** The six-action plan for [air_cargo_p1]. *)
Definition p1_plan : list Action :=
  [Load "C1" "P1" "SFO"; Fly "P1" "SFO" "JFK"; Unload "C1" "P1" "JFK";
   Load "C2" "P2" "JFK"; Fly "P2" "JFK" "SFO"; Unload "C2" "P2" "SFO"].

(** Object names are the symbols [expr] reads: Python identifiers, that is
    letters, digits and underscores, not starting with a digit. *)
Definition identifier_char (c : ascii) : bool :=
  let n := nat_of_ascii c in
  ((65 <=? n) && (n <=? 90) || (97 <=? n) && (n <=? 122)
   || (48 <=? n) && (n <=? 57) || (n =? 95))%nat.

Fixpoint identifier_chars (s : string) : bool :=
  match s with
  | EmptyString => true
  | String c s' => identifier_char c && identifier_chars s'
  end.

Definition is_identifier (s : string) : bool :=
  match s with
  | EmptyString => false
  | String c _ => negb ((48 <=? nat_of_ascii c) && (nat_of_ascii c <=? 57))%nat
                  && identifier_chars s
  end.

(** The reserved words of Python, which [expr] cannot read as symbols. *)
Definition python_keywords : list string :=
  ["False"; "None"; "True"; "and"; "as"; "assert"; "async"; "await"; "break";
   "class"; "continue"; "def"; "del"; "elif"; "else"; "except"; "finally";
   "for"; "from"; "global"; "if"; "import"; "in"; "is"; "lambda"; "nonlocal";
   "not"; "or"; "pass"; "raise"; "return"; "try"; "while"; "with"; "yield"].

(** A name that [expr] reads as the symbol of that name: an identifier that
    is no reserved word and does not start with an underscore (which leaves
    out the names Python itself defines, such as [__debug__]). *)
Definition expr_symbol (s : string) : bool :=
  is_identifier s
  && match s with
     | String c _ => negb (bool_decide (c = "_"%char))
     | EmptyString => false
     end
  && bool_decide (s ∉ python_keywords).

(** A fluent over symbols. *)
Definition symbol_args (f : Fluent) : Prop :=
  Forall (λ x : string, is_identifier x) (fluent_args f).

(** ** Notions of the design *)

(** The vector [encode_state] builds when it does not raise. *)
Definition encoding (positive vocab : list Fluent) : State :=
  (λ f, bool_decide (f ∈ positive)) <$> vocab.

(** The applicability test of the design: all positive preconditions hold
    and all negative preconditions are among the tracked negative fluents. *)
Definition applicable (self : AirCargoProblem) (st : State) (a : Action) : Prop :=
  Forall (λ f, f ∈ pos (decode_state st (state_map self))) (precond_pos a) ∧
  Forall (λ f, f ∈ neg (decode_state st (state_map self))) (precond_neg a).

Global Instance applicable_dec self st a : Decision (applicable self st a).
Proof. unfold applicable. apply _. Defined.

(** The two lists of a fluent state partition a vocabulary: each tracked
    fluent is in one of them, nothing else is, and no fluent is in both. *)
Definition partition_of (vocab : list Fluent) (fs : FluentState) : Prop :=
  (∀ f, f ∈ vocab ↔ f ∈ pos fs ∨ f ∈ neg fs) ∧
  (∀ f, ¬ (f ∈ pos fs ∧ f ∈ neg fs)).

(** The two fluent lists [result] passes to [encode_state]. *)
Definition new_pos (self : AirCargoProblem) (st : State) (a : Action) : list Fluent :=
  filter (λ f, f ∉ effect_rem a) (pos (decode_state st (state_map self)))
    ++ effect_add a.
Definition new_neg (self : AirCargoProblem) (st : State) (a : Action) : list Fluent :=
  filter (λ f, f ∉ effect_add a) (neg (decode_state st (state_map self)))
    ++ effect_rem a.

(** [air_cargo_p2] *)
Definition air_cargo_p2 : Outcome AirCargoProblem :=
  let cargos := ["C1"; "C2"; "C3"] in
  let planes := ["P1"; "P2"; "P3"] in
  let airports := ["JFK"; "SFO"; "ATL"] in
  let pos := [At "C1" "SFO"; At "C2" "JFK"; At "C3" "ATL";
              At "P1" "SFO"; At "P2" "JFK"; At "P3" "ATL"] in
  let total := (cp ← cargos ++ planes; l ← airports; [At cp l])
               ++ (c ← cargos; p ← planes; [In c p]) in
  let neg := filter (λ f, f ∉ pos) total in
  let init := mkFluentState pos neg in
  let goal := [At "C1" "JFK"; At "C2" "SFO"; At "C3" "SFO"] in
  AirCargoProblem_init cargos planes airports init goal.

(** [air_cargo_p3] *)
Definition air_cargo_p3 : Outcome AirCargoProblem :=
  let cargos := ["C1"; "C2"; "C3"; "C4"] in
  let planes := ["P1"; "P2"] in
  let airports := ["JFK"; "SFO"; "ATL"; "ORD"] in
  let pos := [At "C1" "SFO"; At "C2" "JFK"; At "C3" "ATL"; At "C4" "ORD";
              At "P1" "SFO"; At "P2" "JFK"] in
  let total := (cp ← cargos ++ planes; l ← airports; [At cp l])
               ++ (c ← cargos; p ← planes; [In c p]) in
  let neg := filter (λ f, f ∉ pos) total in
  let init := mkFluentState pos neg in
  let goal := [At "C1" "JFK"; At "C2" "SFO"; At "C4" "SFO"; At "C3" "JFK"] in
  AirCargoProblem_init cargos planes airports init goal.

(** [air_cargo_p4] *)
Definition air_cargo_p4 : Outcome AirCargoProblem :=
  let cargos := ["C1"; "C2"; "C3"; "C4"; "C5"; "C6"; "C7"; "C8"] in
  let planes := ["P1"; "P2"; "P3"] in
  let airports := ["JFK"; "SFO"; "ATL"; "ORD"; "SIN"; "HKG"; "YYZ"] in
  let pos := [At "C1" "SFO"; At "C2" "JFK"; At "C3" "ATL"; At "C4" "ORD";
              At "C5" "ORD"; At "C6" "ORD"; At "C7" "HKG"; At "C8" "SIN";
              At "P1" "SFO"; At "P2" "JFK"; At "P2" "YYZ"] in
  let total := (cp ← cargos ++ planes; l ← airports; [At cp l])
               ++ (c ← cargos; p ← planes; [In c p]) in
  let neg := filter (λ f, f ∉ pos) total in
  let init := mkFluentState pos neg in
  let goal := [At "C1" "JFK"; At "C2" "SFO"; At "C4" "SFO"; At "C3" "JFK";
               At "C5" "HKG"; At "C6" "ATL"; At "C7" "SIN"; At "C8" "JFK"] in
  AirCargoProblem_init cargos planes airports init goal.

(** The problems the three builders return. *)
Definition problem_of (built : Outcome AirCargoProblem) : AirCargoProblem :=
  match built with
  | Ok self => self
  | Raise _ => mkAirCargoProblem [] [] [] [] [] [] []
  end.
Definition p2 : AirCargoProblem := problem_of air_cargo_p2.
Definition p3 : AirCargoProblem := problem_of air_cargo_p3.
Definition p4 : AirCargoProblem := problem_of air_cargo_p4.

(** Plans for the three scenarios. *)
Definition p2_plan : list Action :=
  [Load "C1" "P1" "SFO"; Fly "P1" "SFO" "JFK"; Unload "C1" "P1" "JFK";
   Load "C2" "P2" "JFK"; Fly "P2" "JFK" "SFO"; Unload "C2" "P2" "SFO";
   Load "C3" "P3" "ATL"; Fly "P3" "ATL" "SFO"; Unload "C3" "P3" "SFO"].

Definition p3_plan : list Action :=
  [Load "C1" "P1" "SFO"; Fly "P1" "SFO" "ATL"; Load "C3" "P1" "ATL";
   Fly "P1" "ATL" "JFK"; Unload "C1" "P1" "JFK"; Unload "C3" "P1" "JFK";
   Load "C2" "P2" "JFK"; Fly "P2" "JFK" "ORD"; Load "C4" "P2" "ORD";
   Fly "P2" "ORD" "SFO"; Unload "C2" "P2" "SFO"; Unload "C4" "P2" "SFO"].

Definition p4_plan : list Action :=
  [Load "C1" "P1" "SFO"; Fly "P1" "SFO" "JFK"; Unload "C1" "P1" "JFK";
   Load "C2" "P1" "JFK"; Fly "P1" "JFK" "ATL"; Load "C3" "P1" "ATL";
   Fly "P1" "ATL" "ORD"; Load "C4" "P1" "ORD"; Load "C5" "P1" "ORD";
   Load "C6" "P1" "ORD"; Fly "P1" "ORD" "ATL"; Unload "C6" "P1" "ATL";
   Fly "P1" "ATL" "HKG"; Unload "C5" "P1" "HKG"; Load "C7" "P1" "HKG";
   Fly "P1" "HKG" "SIN"; Unload "C7" "P1" "SIN"; Load "C8" "P1" "SIN";
   Fly "P1" "SIN" "JFK"; Unload "C8" "P1" "JFK"; Unload "C3" "P1" "JFK";
   Fly "P1" "JFK" "SFO"; Unload "C2" "P1" "SFO"; Unload "C4" "P1" "SFO"].

(** What the general theorems ask of a scenario: a vocabulary without
    repetition that contains the goal, objects named by identifiers, and
    the grounding of the schemas as its actions. *)
Definition well_formed (self : AirCargoProblem) : Prop :=
  NoDup (state_map self) ∧
  length (initial_state_TF self) = length (state_map self) ∧
  Forall (λ g, g ∈ state_map self) (goal self) ∧
  Forall (λ x : string, is_identifier x)
         (cargos self ++ planes self ++ airports self) ∧
  actions_list self = get_actions (cargos self) (planes self) (airports self).

Global Instance well_formed_dec self : Decision (well_formed self).
Proof. unfold well_formed. apply _. Defined.

(** Every action of a plan is enabled in the state the actions before it
    lead to, and the plan ends in a goal state. *)
Fixpoint solves (self : AirCargoProblem) (st : State) (plan : list Action) : bool :=
  match plan with
  | [] => goal_test self st
  | a :: rest =>
      bool_decide (a ∈ actions self st) &&
      match result self st a with
      | Ok st' => solves self st' rest
      | Raise _ => false
      end
  end.

(** ** [run_search.py]: the catalogue and the selection of [main] *)

(** The search functions imported from [aimacode.search], by name. *)
Inductive SearchFunction : Type :=
  | breadth_first_search
  | breadth_first_tree_search
  | depth_first_graph_search
  | depth_limited_search
  | uniform_cost_search
  | recursive_best_first_search
  | greedy_best_first_graph_search
  | astar_search.

(** [PROBLEMS]: display name and builder. *)
Definition PROBLEMS : list (string * Outcome AirCargoProblem) :=
  [("Air Cargo Problem 1", air_cargo_p1);
   ("Air Cargo Problem 2", air_cargo_p2);
   ("Air Cargo Problem 3", air_cargo_p3);
   ("Air Cargo Problem 4", air_cargo_p4)].

(** [SEARCHES]: display name, function and name of the heuristic. *)
Definition SEARCHES : list (string * SearchFunction * string) :=
  [("breadth_first_search", breadth_first_search, EmptyString);
   ("breadth_first_tree_search", breadth_first_tree_search, EmptyString);
   ("depth_first_graph_search", depth_first_graph_search, EmptyString);
   ("depth_limited_search", depth_limited_search, EmptyString);
   ("uniform_cost_search", uniform_cost_search, EmptyString);
   ("recursive_best_first_search", recursive_best_first_search, "h_1");
   ("recursive_best_first_search", recursive_best_first_search, "h_ignore_preconditions");
   ("recursive_best_first_search", recursive_best_first_search, "h_pg_levelsum");
   ("greedy_best_first_graph_search", greedy_best_first_graph_search, "h_1");
   ("greedy_best_first_graph_search", greedy_best_first_graph_search, "h_ignore_preconditions");
   ("greedy_best_first_graph_search", greedy_best_first_graph_search, "h_pg_levelsum");
   ("astar_search", astar_search, "h_1");
   ("astar_search", astar_search, "h_ignore_preconditions");
   ("astar_search", astar_search, "h_pg_levelsum")].

(** [l[i]] on a Python list: a negative index counts from the end, and an
    index outside [-len(l), len(l) - 1] raises [IndexError] ([None]). *)
Definition py_getitem {A : Type} (l : list A) (i : Z) : option A :=
  if decide (0 ≤ i)%Z then l !! Z.to_nat i
  else if decide (- Z.of_nat (length l) ≤ i)%Z
       then l !! Z.to_nat (Z.of_nat (length l) + i)
       else None.

(** The first two lines of [main], on the choices converted by [int]:
    [[PROBLEMS[i-1] for i in ...]] and [[SEARCHES[i-1] for i in ...]]. *)
Definition main_selection (p_choices s_choices : list Z)
    : option (list (string * Outcome AirCargoProblem)
              * list (string * SearchFunction * string)) :=
  problems ← mapM (λ i, py_getitem PROBLEMS (i - 1)) p_choices;
  searches ← mapM (λ i, py_getitem SEARCHES (i - 1)) s_choices;
  Some (problems, searches).

(** The object a fluent locates: the cargo or plane that is at an airport,
    the cargo that is in a plane. *)
Definition subject (f : Fluent) : string :=
  match f with At x _ => x | In c _ => c end.

(** No object is located twice by the positive fluents. *)
Definition single_location (fs : FluentState) : Prop :=
  ∀ f g, f ∈ pos fs → g ∈ pos fs → subject f = subject g → f = g.

(** No positive fluent locates the object [x]. *)
Definition nowhere (x : string) (fs : FluentState) : Prop :=
  ∀ f, f ∈ pos fs → subject f ≠ x.

(** The goal fluents that are among the negative fluents of a state. *)
Definition unmet_goals (self : AirCargoProblem) (st : State) : gset Fluent :=
  list_to_set (neg (decode_state st (state_map self))) ∩ list_to_set (goal self).

(** Closed decidable facts about a concrete scenario are settled by
    evaluating their decision procedure. *)
Ltac by_evaluation := apply (bool_decide_unpack _); by vm_compute.

(** ** The codec *)

Section codec.
Implicit Types (fs : FluentState) (vocab positive : list Fluent) (st : State).

Lemma encode_state_covered fs vocab :
  (∀ f, f ∈ vocab → f ∈ pos fs ∨ f ∈ neg fs) →
  encode_state fs vocab = Ok (encoding (pos fs) vocab).
Proof.
  induction vocab as [|f vocab IH]; intros Hcov; [done|].
  cbn [encode_state encoding fmap list_fmap].
  rewrite IH by (intros g Hg; apply Hcov; by right).
  destruct (decide (f ∈ pos fs)) as [Hp|Hp].
  - by rewrite bool_decide_eq_true_2.
  - rewrite bool_decide_eq_false_2 by done.
    destruct (decide (f ∈ neg fs)) as [Hn|Hn]; [done|].
    destruct (Hcov f) as [?|?]; [left|done..].
Qed.

Lemma encode_state_uncovered fs vocab f :
  f ∈ vocab → f ∉ pos fs → f ∉ neg fs →
  encode_state fs vocab = Raise EncodingError.
Proof.
  intros Hin Hp Hn. induction vocab as [|g vocab IH]; [by inversion Hin|].
  cbn [encode_state].
  destruct (decide (g ∈ pos fs)) as [Hgp|Hgp].
  - apply elem_of_cons in Hin as [->|Hin]; [done|]. by rewrite IH.
  - destruct (decide (g ∈ neg fs)) as [Hgn|Hgn]; [|done].
    apply elem_of_cons in Hin as [->|Hin]; [done|]. by rewrite IH.
Qed.

Lemma length_encoding positive vocab :
  length (encoding positive vocab) = length vocab.
Proof. apply length_fmap. Qed.

Lemma elem_of_decode_pos st vocab f :
  f ∈ pos (decode_state st vocab) ↔
  ∃ i, st !! i = Some true ∧ vocab !! i = Some f.
Proof.
  revert vocab. induction st as [|b st IH]; intros [|g vocab]; cbn [decode_state pos].
  1-3: split; [by intros ?%elem_of_nil | by intros ([|?]&?&?)].
  destruct b; cbn [pos]; rewrite ?elem_of_cons, IH; split.
  - intros [->|(i&?&?)]; [by exists 0 | by exists (S i)].
  - intros ([|i]&?&?); simplify_eq/=; eauto.
  - intros (i&?&?). by exists (S i).
  - intros ([|i]&?&?); simplify_eq/=; eauto.
Qed.

Lemma elem_of_decode_neg st vocab f :
  f ∈ neg (decode_state st vocab) ↔
  ∃ i, st !! i = Some false ∧ vocab !! i = Some f.
Proof.
  revert vocab. induction st as [|b st IH]; intros [|g vocab]; cbn [decode_state neg].
  1-3: split; [by intros ?%elem_of_nil | by intros ([|?]&?&?)].
  destruct b; cbn [neg]; rewrite ?elem_of_cons, IH; split.
  - intros (i&?&?). by exists (S i).
  - intros ([|i]&?&?); simplify_eq/=; eauto.
  - intros [->|(i&?&?)]; [by exists 0 | by exists (S i)].
  - intros ([|i]&?&?); simplify_eq/=; eauto.
Qed.

(** Every fluent of the vocabulary is decided by a state parallel to it. *)
Lemma decode_state_exhaustive st vocab f :
  length st = length vocab → f ∈ vocab →
  f ∈ pos (decode_state st vocab) ∨ f ∈ neg (decode_state st vocab).
Proof.
  intros Hlen (i&Hi)%list_elem_of_lookup.
  destruct (lookup_lt_is_Some_2 st i) as [b Hb].
  { rewrite Hlen. by eapply lookup_lt_Some. }
  destruct b; [left; apply elem_of_decode_pos | right; apply elem_of_decode_neg]; eauto.
Qed.

Lemma decode_state_in_vocab st vocab f :
  f ∈ pos (decode_state st vocab) ∨ f ∈ neg (decode_state st vocab) → f ∈ vocab.
Proof.
  intros [(i&?&?)%elem_of_decode_pos|(i&?&?)%elem_of_decode_neg];
    by eapply list_elem_of_lookup_2.
Qed.

(** Decoding an encoding splits the vocabulary by membership in the
    positive list that was encoded. *)
Lemma elem_of_decode_encoding_pos positive vocab f :
  f ∈ pos (decode_state (encoding positive vocab) vocab) ↔ f ∈ vocab ∧ f ∈ positive.
Proof.
  rewrite elem_of_decode_pos. unfold encoding. split.
  - intros (i&Hi&Hf). rewrite list_lookup_fmap, Hf in Hi. simplify_eq/=.
    split; [by eapply list_elem_of_lookup_2 | by eapply bool_decide_eq_true_1].
  - intros [(i&Hi)%list_elem_of_lookup Hp]. exists i.
    rewrite list_lookup_fmap, Hi. cbn. by rewrite bool_decide_eq_true_2.
Qed.

Lemma elem_of_decode_encoding_neg positive vocab f :
  f ∈ neg (decode_state (encoding positive vocab) vocab) ↔ f ∈ vocab ∧ f ∉ positive.
Proof.
  rewrite elem_of_decode_neg. unfold encoding. split.
  - intros (i&Hi&Hf). rewrite list_lookup_fmap, Hf in Hi. simplify_eq/=.
    split; [by eapply list_elem_of_lookup_2 | by eapply bool_decide_eq_false_1].
  - intros [(i&Hi)%list_elem_of_lookup Hp]. exists i.
    rewrite list_lookup_fmap, Hi. cbn. by rewrite bool_decide_eq_false_2.
Qed.

(** A state parallel to a vocabulary without repetition decodes to a
    partition of it. *)
Lemma decode_state_partition st vocab :
  NoDup vocab → length st = length vocab →
  partition_of vocab (decode_state st vocab).
Proof.
  intros Hnd Hlen. split.
  - intros f. split; [by apply decode_state_exhaustive|apply decode_state_in_vocab].
  - intros f [(i&Hi&Hf)%elem_of_decode_pos (j&Hj&Hg)%elem_of_decode_neg].
    assert (i = j) as -> by by eapply NoDup_lookup.
    congruence.
Qed.
End codec.

(** ** Applicability *)

Lemma all_in_spec preconds fluents :
  all_in preconds fluents = true ↔ ∀ f, f ∈ preconds → f ∈ fluents.
Proof.
  induction preconds as [|p preconds IH]; cbn [all_in].
  - split; [intros _ f Hf; by inversion Hf | done].
  - destruct (decide (p ∈ fluents)) as [Hp|Hp].
    + rewrite IH. split.
      * intros H f [->|?]%elem_of_cons; auto.
      * intros H f Hf. apply H. by right.
    + split; [done|]. intros H. destruct Hp. apply H. by left.
Qed.

Lemma permissible_spec self a st :
  permissible self a st = true ↔
  (∀ f, f ∈ precond_pos a → f ∈ pos (decode_state st (state_map self))) ∧
  (∀ f, f ∈ precond_neg a → f ∈ neg (decode_state st (state_map self))).
Proof.
  unfold permissible. rewrite <- !all_in_spec.
  destruct (all_in (precond_pos a) _); [tauto|].
  split; [done|]. by intros [? _].
Qed.

Lemma permissible_applicable self a st :
  permissible self a st ↔ applicable self st a.
Proof.
  unfold applicable. rewrite !Forall_forall, Is_true_true. apply permissible_spec.
Qed.

Lemma elem_of_actions (self : AirCargoProblem) (st : State) (a : Action) :
  a ∈ actions self st ↔
  a ∈ actions_list self ∧
  (∀ f, f ∈ precond_pos a → f ∈ pos (decode_state st (state_map self))) ∧
  (∀ f, f ∈ precond_neg a → f ∈ neg (decode_state st (state_map self))).
Proof.
  unfold actions. rewrite list_elem_of_filter, Is_true_true, permissible_spec. tauto.
Qed.

(** C1. [actions] returns exactly the grounded actions whose positive
    preconditions are all among the positive fluents of the decoded state
    and whose negative preconditions are all among its negative fluents,
    in grounding order. *)
Theorem actions_exactly_applicable (self : AirCargoProblem) (st : State) :
  (∀ a, a ∈ actions self st ↔
        a ∈ actions_list self ∧
        (∀ f, f ∈ precond_pos a → f ∈ pos (decode_state st (state_map self))) ∧
        (∀ f, f ∈ precond_neg a → f ∈ neg (decode_state st (state_map self)))) ∧
  actions self st = filter (applicable self st) (actions_list self).
Proof.
  split.
  - intros a. apply elem_of_actions.
  - unfold actions. apply list_filter_iff. intros a. apply permissible_applicable.
Qed.

(** A negative precondition on a fluent outside the vocabulary is not
    satisfied by the fluent being absent from the positive fluents. *)
Lemma untracked_negative_precondition self st a f :
  f ∈ precond_neg a → f ∉ state_map self → a ∉ actions self st.
Proof.
  intros Hf Hv (_&_&Hn)%elem_of_actions.
  apply Hv, (decode_state_in_vocab st). right. by apply Hn.
Qed.

(** ** Goal test *)

(** C5. [goal_test] is true exactly when every fluent of the goal list is
    among the positive fluents of the decoded state. *)
Theorem goal_test_membership (self : AirCargoProblem) (st : State) :
  goal_test self st = true ↔
  ∀ f, f ∈ goal self → f ∈ pos (decode_state st (state_map self)).
Proof.
  unfold goal_test, tell, pos_sentence. cbn [clauses app].
  generalize (pos (decode_state st (state_map self))) as positive.
  intros positive. induction (goal self) as [|g gs IH]; cbn [all_clauses_in clauses].
  - split; [intros _ f Hf; by inversion Hf | done].
  - destruct (decide (g ∈ positive)) as [Hg|Hg].
    + rewrite IH. split.
      * intros H f [->|?]%elem_of_cons; auto.
      * intros H f Hf. apply H. by right.
    + split; [done|]. intros H. destruct Hg. apply H. by left.
Qed.

(** ** Construction *)

Lemma encode_state_initial (initial : FluentState) :
  encode_state initial (pos initial ++ neg initial)
  = Ok (encoding (pos initial) (pos initial ++ neg initial)).
Proof. apply encode_state_covered. intros f. by rewrite elem_of_app. Qed.

(** C9 (as the code has it). The constructor checks nothing about the two
    initial polarity lists. For object names that are symbols, constructing
    a problem whose initial lists share a fluent returns a problem: its
    vocabulary is the positive list followed by the negative list, so the
    shared fluent is tracked at two positions, one in either part, and the
    initial state is true at both. *)
Theorem init_accepts_shared_fluent (cargos planes airports : list string)
    (initial : FluentState) (goal : list Fluent) (f : Fluent) :
  Forall (λ x : string, expr_symbol x) (cargos ++ planes ++ airports) →
  f ∈ pos initial → f ∈ neg initial →
  ∃ (self : AirCargoProblem) (i j : nat),
    AirCargoProblem_init cargos planes airports initial goal = Ok self ∧
    state_map self = pos initial ++ neg initial ∧
    (i < length (pos initial) ≤ j)%nat ∧
    state_map self !! i = Some f ∧ state_map self !! j = Some f ∧
    initial_state_TF self !! i = Some true ∧
    initial_state_TF self !! j = Some true.
Proof.
  intros _ Hp Hn.
  pose proof Hp as (i&Hi)%list_elem_of_lookup.
  pose proof Hn as (k&Hk)%list_elem_of_lookup.
  pose proof (lookup_lt_Some _ _ _ Hi) as Hlt.
  assert ((pos initial ++ neg initial) !! i = Some f) as Hi'
    by by rewrite lookup_app_l.
  assert ((pos initial ++ neg initial) !! (length (pos initial) + k)%nat = Some f) as Hk'
    by by rewrite lookup_app_r, Nat.add_comm, Nat.add_sub by lia.
  eexists _, i, (length (pos initial) + k)%nat. split.
  { unfold AirCargoProblem_init. by rewrite encode_state_initial. }
  cbn [state_map initial_state_TF]. unfold encoding.
  split_and!; [done|lia|lia|done|done|..];
    rewrite list_lookup_fmap; [rewrite Hi'|rewrite Hk']; cbn;
    by rewrite bool_decide_eq_true_2.
Qed.

(** C9 (as the code has it) on one cargo, plane and airport, with the
    same fluent given as positive and as negative. *)
Lemma init_accepts_shared_fluent_witness :
  ∃ (self : AirCargoProblem) (i j : nat),
    AirCargoProblem_init ["C1"] ["P1"] ["SFO"]
      (mkFluentState [At "C1" "SFO"] [At "C1" "SFO"]) [At "C1" "SFO"] = Ok self ∧
    state_map self = [At "C1" "SFO"] ++ [At "C1" "SFO"] ∧
    (i < 1 ≤ j)%nat ∧
    state_map self !! i = Some (At "C1" "SFO") ∧
    state_map self !! j = Some (At "C1" "SFO") ∧
    initial_state_TF self !! i = Some true ∧
    initial_state_TF self !! j = Some true.
Proof.
  apply (init_accepts_shared_fluent ["C1"] ["P1"] ["SFO"]
           (mkFluentState [At "C1" "SFO"] [At "C1" "SFO"]) [At "C1" "SFO"]
           (At "C1" "SFO")).
  - by_evaluation.
  - by_evaluation.
  - by_evaluation.
Defined.

(** C9 (as stated) fails: a fluent in both initial lists is accepted, is
    tracked twice and is true at both of its positions. *)
Lemma init_accepts_fluent_in_both_polarities :
  At "C1" "SFO" ∈ pos (mkFluentState [At "C1" "SFO"] [At "C1" "SFO"]) ∧
  At "C1" "SFO" ∈ neg (mkFluentState [At "C1" "SFO"] [At "C1" "SFO"]) ∧
  ∃ self,
    AirCargoProblem_init ["C1"] ["P1"] ["SFO"]
      (mkFluentState [At "C1" "SFO"] [At "C1" "SFO"]) [At "C1" "SFO"] = Ok self ∧
    state_map self = [At "C1" "SFO"; At "C1" "SFO"] ∧
    initial_state_TF self = [true; true].
Proof.
  split_and!; [by apply list_elem_of_singleton..|].
  eexists. split; [vm_compute; reflexivity|]. split; by vm_compute.
Qed.

Lemma air_cargo_p1_ok : air_cargo_p1 = Ok p1.
Proof. by vm_compute. Qed.

(** ** Transitions *)

Lemma elem_of_new_pos (self : AirCargoProblem) (st : State) (a : Action) (f : Fluent) :
  f ∈ new_pos self st a ↔
  (f ∈ pos (decode_state st (state_map self)) ∧ f ∉ effect_rem a) ∨ f ∈ effect_add a.
Proof. unfold new_pos. rewrite elem_of_app, list_elem_of_filter. tauto. Qed.

Lemma elem_of_new_neg (self : AirCargoProblem) (st : State) (a : Action) (f : Fluent) :
  f ∈ new_neg self st a ↔
  (f ∈ neg (decode_state st (state_map self)) ∧ f ∉ effect_add a) ∨ f ∈ effect_rem a.
Proof. unfold new_neg. rewrite elem_of_app, list_elem_of_filter. tauto. Qed.

Lemma result_available (self : AirCargoProblem) (st : State) (a : Action) :
  action_string a ∈ action_string <$> actions self st →
  result self st a
  = encode_state (mkFluentState (new_pos self st a) (new_neg self st a)) (state_map self).
Proof. intros Hin. unfold result. cbn zeta. by rewrite decide_True. Qed.

Lemma result_unavailable (self : AirCargoProblem) (st : State) (a : Action) :
  action_string a ∉ action_string <$> actions self st →
  result self st a
  = Raise (InvalidActionError (name a) (args a) (allowed_row a <$> actions self st)).
Proof. intros Hin. unfold result. cbn zeta. by rewrite decide_False. Qed.

(** Whatever is decided by the state is still decided after the effects:
    a fluent leaves one list only by entering the other. *)
Lemma new_state_covers (self : AirCargoProblem) (st : State) (a : Action) (f : Fluent) :
  f ∈ pos (decode_state st (state_map self)) ∨ f ∈ neg (decode_state st (state_map self)) →
  f ∈ new_pos self st a ∨ f ∈ new_neg self st a.
Proof.
  rewrite elem_of_new_pos, elem_of_new_neg.
  destruct (decide (f ∈ effect_rem a)), (decide (f ∈ effect_add a)); tauto.
Qed.

Lemma encode_new_state (self : AirCargoProblem) (st : State) (a : Action) :
  (∀ f, f ∈ state_map self →
        f ∈ pos (decode_state st (state_map self)) ∨
        f ∈ neg (decode_state st (state_map self))) →
  encode_state (mkFluentState (new_pos self st a) (new_neg self st a)) (state_map self)
  = Ok (encoding (new_pos self st a) (state_map self)).
Proof.
  intros Hcov. apply encode_state_covered. intros f Hf. cbn [pos neg].
  by apply new_state_covers, Hcov.
Qed.

Lemma enabled_available (self : AirCargoProblem) (st : State) (a : Action) :
  a ∈ actions self st → action_string a ∈ action_string <$> actions self st.
Proof. apply list_elem_of_fmap_2. Qed.

Lemma encoding_ext (P P' vocab : list Fluent) :
  (∀ f, f ∈ P ↔ f ∈ P') → encoding P vocab = encoding P' vocab.
Proof.
  intros HP. unfold encoding. apply list_fmap_ext. intros _ f _.
  apply bool_decide_ext, HP.
Qed.

Lemma encode_state_ext (fs fs' : FluentState) (vocab : list Fluent) :
  (∀ f, f ∈ pos fs ↔ f ∈ pos fs') → (∀ f, f ∈ neg fs ↔ f ∈ neg fs') →
  encode_state fs vocab = encode_state fs' vocab.
Proof.
  intros HP HN. induction vocab as [|f vocab IH]; [done|]. cbn [encode_state].
  rewrite IH. destruct (decide (f ∈ pos fs)) as [Hp|Hp].
  - by rewrite decide_True by by apply HP.
  - rewrite (decide_False (P := f ∈ pos fs')) by by rewrite <- HP.
    apply decide_ext, HN.
Qed.

(** C2. On a state parallel to the vocabulary, the result of an enabled
    action is the encoding, over the same vocabulary, of the positive set
    (positive minus delete effects) plus add effects and the negative set
    (negative minus add effects) plus delete effects, whatever lists [P] and
    [N] present these two sets: position by position, true iff the fluent is
    in the new positive set. *)
Theorem result_applies_effects (self : AirCargoProblem) (st : State) (a : Action)
    (P N : list Fluent) :
  length st = length (state_map self) →
  a ∈ actions self st →
  (∀ f, f ∈ P ↔ (f ∈ pos (decode_state st (state_map self)) ∧ f ∉ effect_rem a)
                 ∨ f ∈ effect_add a) →
  (∀ f, f ∈ N ↔ (f ∈ neg (decode_state st (state_map self)) ∧ f ∉ effect_add a)
                 ∨ f ∈ effect_rem a) →
  result self st a = encode_state (mkFluentState P N) (state_map self) ∧
  result self st a = Ok ((λ f, bool_decide (f ∈ P)) <$> state_map self).
Proof.
  intros Hlen Ha HP HN.
  rewrite result_available by by apply enabled_available.
  assert (encode_state (mkFluentState (new_pos self st a) (new_neg self st a))
            (state_map self)
          = encode_state (mkFluentState P N) (state_map self)) as Heq.
  { apply encode_state_ext; intros f; cbn [pos neg].
    - by rewrite elem_of_new_pos, HP.
    - by rewrite elem_of_new_neg, HN. }
  split; [done|].
  rewrite encode_new_state by (intros f; by apply decode_state_exhaustive).
  f_equal. apply encoding_ext. intros f. by rewrite elem_of_new_pos, HP.
Qed.

(** C2 on the initial state of [air_cargo_p1] and its first load. *)
Lemma result_applies_effects_witness :
  result p1 (initial_state_TF p1) (Load "C1" "P1" "SFO")
  = Ok [false; true; true; true; false; false; false; false; true; false; false; false].
Proof.
  destruct (result_applies_effects p1 (initial_state_TF p1) (Load "C1" "P1" "SFO")
              (new_pos p1 (initial_state_TF p1) (Load "C1" "P1" "SFO"))
              (new_neg p1 (initial_state_TF p1) (Load "C1" "P1" "SFO")))
    as [_ Hres].
  - by vm_compute.
  - by_evaluation.
  - intros f. apply elem_of_new_pos.
  - intros f. apply elem_of_new_neg.
  - rewrite Hres. by vm_compute.
Defined.

(** C3 (as the code has it). On a state parallel to the vocabulary,
    [result] succeeds for every enabled action and, more generally, for
    every action whose printed name and arguments are those of an enabled
    action; for every other action it raises the exception that reports
    name and arguments of the attempted action and, for each enabled
    action, its name and arguments. *)
Theorem result_succeeds_iff_printed_enabled (self : AirCargoProblem) (st : State)
    (a : Action) :
  length st = length (state_map self) →
  (a ∈ actions self st → ∃ st', result self st a = Ok st') ∧
  (action_string a ∈ action_string <$> actions self st →
     ∃ st', result self st a = Ok st') ∧
  (action_string a ∉ action_string <$> actions self st →
     ∃ allowed,
       result self st a = Raise (InvalidActionError (name a) (args a) allowed) ∧
       (λ row, (row.1.1.1, row.1.1.2)) <$> allowed
       = (λ g, (name g, args g)) <$> actions self st).
Proof.
  intros Hlen.
  assert (action_string a ∈ action_string <$> actions self st →
          ∃ st', result self st a = Ok st') as Hok.
  { intros Hin. eexists. rewrite result_available by done.
    apply encode_new_state. intros f. by apply decode_state_exhaustive. }
  split_and!; [|done|].
  - intros Ha. by apply Hok, enabled_available.
  - intros Hin. eexists. split; [by apply result_unavailable|].
    rewrite <- list_fmap_compose. by apply list_fmap_ext.
Qed.

(** C3 on the initial state of [air_cargo_p1]: a load of C1 into the plane
    that is at the other airport is refused. *)
Lemma result_succeeds_iff_printed_enabled_witness :
  ∃ allowed,
    result p1 (initial_state_TF p1) (Load "C1" "P2" "SFO")
    = Raise (InvalidActionError "Load" ["C1"; "P2"; "SFO"] allowed).
Proof.
  destruct (result_succeeds_iff_printed_enabled p1 (initial_state_TF p1)
              (Load "C1" "P2" "SFO")) as (_&_&Hraise).
  - by vm_compute.
  - destruct Hraise as (allowed&Hres&_).
    + intros Hin. apply (bool_decide_pack _) in Hin. by vm_compute in Hin.
    + by exists allowed.
Defined.

(** C4. If the decoding of a state is a disjoint and exhaustive partition of
    the vocabulary, so is the decoding of the result of an enabled action. *)
Theorem result_preserves_partition (self : AirCargoProblem) (st : State) (a : Action) :
  partition_of (state_map self) (decode_state st (state_map self)) →
  a ∈ actions self st →
  ∃ st', result self st a = Ok st' ∧
         partition_of (state_map self) (decode_state st' (state_map self)).
Proof.
  intros [Hex Hdisj] Ha.
  exists (encoding (new_pos self st a) (state_map self)). split.
  - rewrite result_available by by apply enabled_available.
    apply encode_new_state. intros f. apply Hex.
  - split.
    + intros f. rewrite elem_of_decode_encoding_pos, elem_of_decode_encoding_neg.
      destruct (decide (f ∈ new_pos self st a)); tauto.
    + intros f. rewrite elem_of_decode_encoding_pos, elem_of_decode_encoding_neg. tauto.
Qed.

(** C4 on the initial state of [air_cargo_p1] and its first load. *)
Lemma result_preserves_partition_witness :
  ∃ st', result p1 (initial_state_TF p1) (Load "C1" "P1" "SFO") = Ok st' ∧
         partition_of (state_map p1) (decode_state st' (state_map p1)).
Proof.
  apply (result_preserves_partition p1 (initial_state_TF p1) (Load "C1" "P1" "SFO")).
  - apply decode_state_partition; [|by vm_compute].
    by_evaluation.
  - by_evaluation.
Defined.

(** C3 (as stated) fails in its second half: on the initial state of
    [air_cargo_p1] an action that is not among the enabled actions, but
    prints like the enabled [Load(C1, P1, SFO)], is applied. *)
Lemma result_accepts_action_not_enabled :
  air_cargo_p1 = Ok p1 ∧
  length (initial_state_TF p1) = length (state_map p1) ∧
  (mkAction "Load" ["C1"; "P1"; "SFO"] [] [] [] []
     ∉ actions p1 (initial_state_TF p1)) ∧
  result p1 (initial_state_TF p1) (mkAction "Load" ["C1"; "P1"; "SFO"] [] [] [] [])
  = Ok (initial_state_TF p1).
Proof.
  split_and!; [by vm_compute|by vm_compute| |by vm_compute].
  intros Hin. apply (bool_decide_pack _) in Hin. by vm_compute in Hin.
Qed.

(** C10. [result] looks the action up by its printed name and arguments
    only: on a state parallel to the vocabulary, an action that prints like
    an enabled action is applied with its own effect lists. This holds also
    for an action that is not grounded for the scenario and whose effects
    differ from those of the enabled action it prints like, as the
    teleporting [Load(C1, P1, SFO)] on [air_cargo_p1] shows. *)
Theorem result_compares_printed_actions :
  (∀ (self : AirCargoProblem) (st : State) (a g : Action),
     length st = length (state_map self) →
     g ∈ actions self st →
     action_string a = action_string g →
     ∃ st',
       result self st a = Ok st' ∧
       length st' = length (state_map self) ∧
       ∀ i f, state_map self !! i = Some f →
         st' !! i = Some (bool_decide
           ((f ∈ pos (decode_state st (state_map self)) ∧ f ∉ effect_rem a)
            ∨ f ∈ effect_add a))) ∧
  (∃ (self : AirCargoProblem) (a g : Action) (st' st'' : State),
     air_cargo_p1 = Ok self ∧
     g ∈ actions self (initial_state_TF self) ∧
     name a = name g ∧ args a = args g ∧
     (a ∉ actions_list self) ∧
     (effect_add a ≠ effect_add g) ∧
     result self (initial_state_TF self) a = Ok st' ∧
     result self (initial_state_TF self) g = Ok st'' ∧
     st' ≠ st'').
Proof.
  split.
  - intros self st a g Hlen Hg Heq.
    exists (encoding (new_pos self st a) (state_map self)). split_and!.
    + rewrite result_available.
      * apply encode_new_state. intros f. by apply decode_state_exhaustive.
      * rewrite Heq. by apply enabled_available.
    + apply length_encoding.
    + intros i f Hi. unfold encoding. rewrite list_lookup_fmap, Hi. cbn.
      f_equal. apply bool_decide_ext, elem_of_new_pos.
  - exists p1, (mkAction "Load" ["C1"; "P1"; "SFO"] [] [] [At "C1" "JFK"] []),
      (Load "C1" "P1" "SFO").
    eexists _, _. split; [apply air_cargo_p1_ok|].
    split_and!; [by_evaluation|done|done| |done
                 |by vm_compute|by vm_compute|by vm_compute].
    intros Hin. apply (bool_decide_pack _) in Hin. by vm_compute in Hin.
Qed.

(** C10 on the initial state of [air_cargo_p1], for the teleporting load. *)
Lemma result_compares_printed_actions_witness :
  ∃ st' : State,
    result p1 (initial_state_TF p1)
      (mkAction "Load" ["C1"; "P1"; "SFO"] [] [] [At "C1" "JFK"] []) = Ok st' ∧
    length st' = length (state_map p1).
Proof.
  destruct (proj1 result_compares_printed_actions p1 (initial_state_TF p1)
              (mkAction "Load" ["C1"; "P1"; "SFO"] [] [] [At "C1" "JFK"] [])
              (Load "C1" "P1" "SFO")) as (st'&Hres&Hlen&_).
  - by vm_compute.
  - by_evaluation.
  - by vm_compute.
  - exists st'. split; [exact Hres|exact Hlen].
Defined.

(** ** Grounding *)

Section grounding.
Context {A B : Type}.

Lemma length_bind_const (k : A → list B) (l : list A) (n : nat) :
  (∀ x, x ∈ l → length (k x) = n) → length (l ≫= k) = length l * n.
Proof.
  induction l as [|x l IH]; intros Hk; [done|].
  rewrite bind_cons, length_app, IH, Hk; [done|by left|].
  intros y Hy. apply Hk. by right.
Qed.

Lemma Forall_bind (Q : B → Prop) (k : A → list B) (l : list A) :
  (∀ x, x ∈ l → Forall Q (k x)) → Forall Q (l ≫= k).
Proof.
  intros Hk. apply Forall_forall. intros y (x&Hy&Hx)%list_elem_of_bind.
  by eapply (proj1 (Forall_forall _ _) (Hk x Hx)).
Qed.

Lemma filter_all (Q : A → Prop) `{!∀ x, Decision (Q x)} (l : list A) :
  Forall Q l → filter Q l = l.
Proof.
  induction 1 as [|x l Hx _ IH]; [done|]. by rewrite filter_cons_True, IH.
Qed.

Lemma filter_none (Q : A → Prop) `{!∀ x, Decision (Q x)} (l : list A) :
  Forall (λ x, ¬ Q x) l → filter Q l = [].
Proof.
  induction 1 as [|x l Hx _ IH]; [done|]. by rewrite filter_cons_False, IH.
Qed.
End grounding.

Section grounded_actions.
Variables cargos planes airports : list string.

Lemma length_load_actions :
  length (load_actions cargos planes airports)
  = length airports * length planes * length cargos.
Proof.
  unfold load_actions.
  rewrite (length_bind_const _ _ (length planes * length cargos)); [lia|].
  intros airport _. apply length_bind_const. intros plane _.
  rewrite (length_bind_const _ _ 1); [lia|done].
Qed.

Lemma length_unload_actions :
  length (unload_actions cargos planes airports)
  = length airports * length planes * length cargos.
Proof.
  unfold unload_actions.
  rewrite (length_bind_const _ _ (length planes * length cargos)); [lia|].
  intros airport _. apply length_bind_const. intros plane _.
  rewrite (length_bind_const _ _ 1); [lia|done].
Qed.

(** The flights out of one airport [fr] to the airports of a list without
    repetition: one per plane and airport of the list other than [fr]. *)
Lemma length_fly_from (fr : string) (tos : list string) :
  NoDup tos →
  length (to ← tos; if decide (fr ≠ to) then p ← planes; [Fly p fr to] else [])
  = (length tos - (if decide (fr ∈ tos) then 1 else 0)) * length planes.
Proof.
  induction 1 as [|to tos Hto Hnd IH]; [done|].
  rewrite bind_cons, length_app, IH. cbn [length].
  destruct (decide (fr ≠ to)) as [Hne|Heq].
  - rewrite (length_bind_const _ _ 1) by done.
    destruct (decide (fr ∈ tos)) as [Hin|Hin].
    + rewrite (decide_True (P := fr ∈ to :: tos)) by by right.
      destruct tos; [by inversion Hin|]. cbn [length]. lia.
    + rewrite (decide_False (P := fr ∈ to :: tos)); [lia|].
      by intros [?|?]%elem_of_cons.
  - apply dec_stable in Heq as <-.
    rewrite (decide_True (P := fr ∈ fr :: tos)) by by left.
    rewrite (decide_False (P := fr ∈ tos)) by done.
    cbn [length]. lia.
Qed.

Lemma length_fly_actions :
  NoDup airports →
  length (fly_actions planes airports)
  = length planes * length airports * (length airports - 1).
Proof.
  intros Hnd. unfold fly_actions.
  rewrite (length_bind_const _ _ ((length airports - 1) * length planes)); [lia|].
  intros fr Hfr. rewrite length_fly_from by done. by rewrite decide_True.
Qed.

Lemma elem_of_load_actions a :
  a ∈ load_actions cargos planes airports ↔
  ∃ cargo plane airport,
    cargo ∈ cargos ∧ plane ∈ planes ∧ airport ∈ airports ∧
    a = Load cargo plane airport.
Proof.
  unfold load_actions. split.
  - intros (airport&(plane&(cargo&->%list_elem_of_singleton&?)%list_elem_of_bind&?)
              %list_elem_of_bind&?)%list_elem_of_bind.
    by exists cargo, plane, airport.
  - intros (cargo&plane&airport&?&?&?&->).
    apply list_elem_of_bind. exists airport. split; [|done].
    apply list_elem_of_bind. exists plane. split; [|done].
    apply list_elem_of_bind. exists cargo. split; [|done].
    by apply list_elem_of_singleton.
Qed.

Lemma elem_of_unload_actions a :
  a ∈ unload_actions cargos planes airports ↔
  ∃ cargo plane airport,
    cargo ∈ cargos ∧ plane ∈ planes ∧ airport ∈ airports ∧
    a = Unload cargo plane airport.
Proof.
  unfold unload_actions. split.
  - intros (airport&(plane&(cargo&->%list_elem_of_singleton&?)%list_elem_of_bind&?)
              %list_elem_of_bind&?)%list_elem_of_bind.
    by exists cargo, plane, airport.
  - intros (cargo&plane&airport&?&?&?&->).
    apply list_elem_of_bind. exists airport. split; [|done].
    apply list_elem_of_bind. exists plane. split; [|done].
    apply list_elem_of_bind. exists cargo. split; [|done].
    by apply list_elem_of_singleton.
Qed.

Lemma elem_of_fly_actions a :
  a ∈ fly_actions planes airports ↔
  ∃ plane fr to,
    plane ∈ planes ∧ fr ∈ airports ∧ to ∈ airports ∧ fr ≠ to ∧
    a = Fly plane fr to.
Proof.
  unfold fly_actions. rewrite list_elem_of_bind. split.
  - intros (fr&(to&Ha&Hto)%list_elem_of_bind&Hfr).
    destruct (decide (fr ≠ to)) as [Hne|]; [|by inversion Ha].
    apply list_elem_of_bind in Ha as (plane&->%list_elem_of_singleton&Hp).
    by exists plane, fr, to.
  - intros (plane&fr&to&Hp&Hfr&Hto&Hne&->). exists fr. split; [|done].
    apply list_elem_of_bind. exists to. split; [|done].
    rewrite decide_True by done. apply list_elem_of_bind. exists plane.
    split; [by apply list_elem_of_singleton|done].
Qed.

Lemma load_actions_names :
  Forall (λ a, name a = "Load") (load_actions cargos planes airports).
Proof.
  apply Forall_forall. by intros a (?&?&?&_&_&_&->)%elem_of_load_actions.
Qed.

Lemma unload_actions_names :
  Forall (λ a, name a = "Unload") (unload_actions cargos planes airports).
Proof.
  apply Forall_forall. by intros a (?&?&?&_&_&_&->)%elem_of_unload_actions.
Qed.

Lemma fly_actions_names :
  Forall (λ a, name a = "Fly") (fly_actions planes airports).
Proof.
  apply Forall_forall. by intros a (?&?&?&_&_&_&_&->)%elem_of_fly_actions.
Qed.

(** The actions of one name in the grounding are one of its three parts. *)
Lemma filter_get_actions (n : string) (ls us fs : list Action) :
  filter (λ a, name a = n) (load_actions cargos planes airports) = ls →
  filter (λ a, name a = n) (unload_actions cargos planes airports) = us →
  filter (λ a, name a = n) (fly_actions planes airports) = fs →
  filter (λ a, name a = n) (get_actions cargos planes airports) = ls ++ us ++ fs.
Proof. intros <- <- <-. unfold get_actions. by rewrite !filter_app. Qed.
End grounded_actions.

(** C7. For [C] cargos, [P] planes and [A] pairwise different airports, the
    grounding has [A * P * C] actions named Load, as many named Unload,
    [P * A * (A - 1)] named Fly, [2 * C * P * A + P * A * (A - 1)] actions in
    all, and its actions are exactly the instances of the three schemas over
    the objects of the scenario, Fly between different airports only. *)
Theorem get_actions_grounding (cargos planes airports : list string) :
  NoDup airports →
  length (filter (λ a, name a = "Load") (get_actions cargos planes airports))
    = length airports * length planes * length cargos ∧
  length (filter (λ a, name a = "Unload") (get_actions cargos planes airports))
    = length airports * length planes * length cargos ∧
  length (filter (λ a, name a = "Fly") (get_actions cargos planes airports))
    = length planes * length airports * (length airports - 1) ∧
  length (get_actions cargos planes airports)
    = 2 * length cargos * length planes * length airports
      + length planes * length airports * (length airports - 1) ∧
  ∀ a, a ∈ get_actions cargos planes airports ↔
    (∃ cargo plane airport,
       cargo ∈ cargos ∧ plane ∈ planes ∧ airport ∈ airports ∧
       a = {| name := "Load"; args := [cargo; plane; airport];
              precond_pos := [At plane airport; At cargo airport];
              precond_neg := [];
              effect_add := [In cargo plane];
              effect_rem := [At cargo airport] |}) ∨
    (∃ cargo plane airport,
       cargo ∈ cargos ∧ plane ∈ planes ∧ airport ∈ airports ∧
       a = {| name := "Unload"; args := [cargo; plane; airport];
              precond_pos := [At plane airport; In cargo plane];
              precond_neg := [];
              effect_add := [At cargo airport];
              effect_rem := [In cargo plane] |}) ∨
    (∃ plane fr to,
       plane ∈ planes ∧ fr ∈ airports ∧ to ∈ airports ∧ fr ≠ to ∧
       a = {| name := "Fly"; args := [plane; fr; to];
              precond_pos := [At plane fr];
              precond_neg := [];
              effect_add := [At plane to];
              effect_rem := [At plane fr] |}).
Proof.
  intros Hnd.
  pose proof (load_actions_names cargos planes airports) as Hl.
  pose proof (unload_actions_names cargos planes airports) as Hu.
  pose proof (fly_actions_names planes airports) as Hf.
  split_and!.
  - erewrite filter_get_actions;
      [|by apply filter_all
       |apply filter_none; eapply Forall_impl; [exact Hu|by intros a ->]
       |apply filter_none; eapply Forall_impl; [exact Hf|by intros a ->]].
    rewrite app_nil_r. apply length_load_actions.
  - erewrite filter_get_actions;
      [|apply filter_none; eapply Forall_impl; [exact Hl|by intros a ->]
       |by apply filter_all
       |apply filter_none; eapply Forall_impl; [exact Hf|by intros a ->]].
    rewrite app_nil_r. apply length_unload_actions.
  - erewrite filter_get_actions;
      [|apply filter_none; eapply Forall_impl; [exact Hl|by intros a ->]
       |apply filter_none; eapply Forall_impl; [exact Hu|by intros a ->]
       |by apply filter_all].
    by apply length_fly_actions.
  - unfold get_actions.
    rewrite !length_app, length_load_actions, length_unload_actions,
      length_fly_actions by done. lia.
  - intros a. unfold get_actions.
    rewrite !elem_of_app, elem_of_load_actions, elem_of_unload_actions,
      elem_of_fly_actions. done.
Qed.

(** C7 on the objects of [air_cargo_p1]. *)
Lemma get_actions_grounding_witness :
  length (get_actions ["C1"; "C2"] ["P1"; "P2"] ["JFK"; "SFO"]) = 20.
Proof.
  pose proof (get_actions_grounding ["C1"; "C2"] ["P1"; "P2"] ["JFK"; "SFO"]) as H.
  destruct H as (_&_&_&Htotal&_).
  - by_evaluation.
  - exact Htotal.
Defined.

(** ** Scenario P1 *)

(** C6. On [air_cargo_p1] (cargos C1 and C2, planes P1 and P2, airports JFK
    and SFO, C1 and P1 at SFO, C2 and P2 at JFK, goal At(C1, JFK) and
    At(C2, SFO)) every action of the six-action plan is enabled in the state
    reached by the actions before it, the goal test is false in each of
    these six states, and it is true in the state the whole plan reaches. *)
Theorem p1_plan_reaches_goal :
  air_cargo_p1 = Ok p1 ∧
  cargos p1 = ["C1"; "C2"] ∧ planes p1 = ["P1"; "P2"] ∧ airports p1 = ["JFK"; "SFO"] ∧
  pos (decode_state (initial_state_TF p1) (state_map p1))
    = [At "C1" "SFO"; At "C2" "JFK"; At "P1" "SFO"; At "P2" "JFK"] ∧
  goal p1 = [At "C1" "JFK"; At "C2" "SFO"] ∧
  (∀ n a, p1_plan !! n = Some a →
     ∃ st, run p1 (initial_state_TF p1) (take n p1_plan) = Ok st ∧
           a ∈ actions p1 st ∧
           goal_test p1 st = false) ∧
  (∃ st, run p1 (initial_state_TF p1) p1_plan = Ok st ∧ goal_test p1 st = true).
Proof.
  split_and!; [by vm_compute..| |].
  - intros n a Hn.
    do 6 (destruct n as [|n];
          [injection Hn as <-; eexists; split_and!;
             [by vm_compute|by_evaluation|by vm_compute]|]).
    by destruct n.
  - eexists. split; by vm_compute.
Qed.

(** ** Heuristics *)

Lemma h_1_constant (self : AirCargoProblem) (node : Node) : h_1 self node = 1.
Proof. reflexivity. Qed.

(** *** Printed fluents *)

Lemma append_char_cancel (c : ascii) (s s' : string) :
  s +:+ String c EmptyString = s' +:+ String c EmptyString → s = s'.
Proof.
  revert s'. induction s as [|d s IH]; intros [|d' s'] Heq; [done| | |].
  - injection Heq as _ Heq. by destruct s'.
  - injection Heq as _ Heq. by destruct s.
  - injection Heq as -> Heq. f_equal. by apply IH.
Qed.

Lemma identifier_char_not_comma (c : ascii) :
  identifier_char c → c ≠ ","%char.
Proof. intros Hc ->. by vm_compute in Hc. Qed.

(** A prefix of identifier characters ends at the first comma. *)
Lemma identifier_prefix (s s' r r' : string) :
  identifier_chars s → identifier_chars s' →
  s +:+ String ","%char r = s' +:+ String ","%char r' → s = s' ∧ r = r'.
Proof.
  revert s'. induction s as [|c s IH]; intros [|c' s'] Hs Hs' Heq.
  - injection Heq as ->. done.
  - injection Heq as <- _. cbn in Hs'. apply andb_prop_elim in Hs' as [Hc _].
    by apply identifier_char_not_comma in Hc.
  - injection Heq as -> _. cbn in Hs. apply andb_prop_elim in Hs as [Hc _].
    by apply identifier_char_not_comma in Hc.
  - injection Heq as -> Heq. cbn in Hs, Hs'.
    apply andb_prop_elim in Hs as [_ Hs]. apply andb_prop_elim in Hs' as [_ Hs'].
    destruct (IH s' Hs Hs' Heq) as [-> ->]. done.
Qed.

Lemma is_identifier_chars (s : string) : is_identifier s → identifier_chars s.
Proof. destruct s as [|c s]; [done|]. cbn [is_identifier]. by intros [_ ?]%andb_prop_elim. Qed.

Lemma printed_args_inj (op x y x' y' : string) :
  is_identifier x → is_identifier x' →
  py_format op [x; y] = py_format op [x'; y'] → x = x' ∧ y = y'.
Proof.
  intros Hx%is_identifier_chars Hx'%is_identifier_chars Heq.
  unfold py_format, py_tuple_str in Heq. cbn [String.concat] in Heq.
  apply (inj (String.append op)), (inj (String.append "(")) in Heq.
  apply append_char_cancel in Heq.
  apply identifier_prefix in Heq as [-> Heq]; [|done..].
  split; [done|]. by apply (inj (String.append " ")) in Heq.
Qed.

(** On fluents over symbols, different fluents print differently. *)
Lemma fluent_string_inj (f g : Fluent) :
  symbol_args f → symbol_args g → fluent_string f = fluent_string g → f = g.
Proof.
  unfold symbol_args, fluent_string.
  destruct f as [x y|x y], g as [x' y'|x' y']; cbn [fluent_op fluent_args];
    intros Hf Hg Heq.
  - apply printed_args_inj in Heq as [-> ->]; [done|by inversion Hf|by inversion Hg].
  - discriminate Heq.
  - discriminate Heq.
  - apply printed_args_inj in Heq as [-> ->]; [done|by inversion Hf|by inversion Hg].
Qed.

(** Printing the members of two lists, on which it is injective, keeps the
    number of values the lists share. *)
Lemma size_shared_printed (l k : list Fluent) :
  (∀ f, f ∈ l ++ k → symbol_args f) →
  size (list_to_set (fluent_string <$> l) ∩ list_to_set (fluent_string <$> k) : gset string)
  = size (list_to_set l ∩ list_to_set k : gset Fluent).
Proof.
  intros Hsym.
  set (Z := list_to_set l ∩ list_to_set k : gset Fluent).
  assert (list_to_set (fluent_string <$> l) ∩ list_to_set (fluent_string <$> k)
          = (list_to_set (fluent_string <$> elements Z) : gset string)) as ->.
  { apply set_eq. intros x.
    rewrite elem_of_intersection, !elem_of_list_to_set, !list_elem_of_fmap. split.
    - intros [(f&->&Hf) (g&Heq&Hg)].
      apply fluent_string_inj in Heq as <-;
        [|apply Hsym, elem_of_app; by left|apply Hsym, elem_of_app; by right].
      exists f. split; [done|]. apply elem_of_elements. unfold Z.
      by rewrite elem_of_intersection, !elem_of_list_to_set.
    - intros (f&->&Hf). apply elem_of_elements in Hf. unfold Z in Hf.
      rewrite elem_of_intersection, !elem_of_list_to_set in Hf.
      destruct Hf as [Hl Hk]. split; by exists f. }
  rewrite size_list_to_set, length_fmap; [done|].
  apply NoDup_fmap_2_strong; [|apply NoDup_elements].
  intros f g Hf Hg. apply elem_of_elements in Hf, Hg. unfold Z in Hf, Hg.
  rewrite elem_of_intersection, !elem_of_list_to_set in Hf, Hg.
  apply fluent_string_inj; apply Hsym, elem_of_app; left; tauto.
Qed.

(** C8. On a scenario whose fluents are over symbols,
    [h_ignore_preconditions] is the number of fluents that are both among
    the negative fluents of the decoded state and among the goal fluents. On
    [air_cargo_p1] it is 2 in the initial state and 0 in the state the
    six-action plan reaches. *)
Theorem h_ignore_preconditions_counts_unmet_goals :
  (∀ (self : AirCargoProblem) (node : Node),
     (∀ f, f ∈ state_map self ++ goal self → symbol_args f) →
     h_ignore_preconditions self node
     = size (list_to_set (neg (decode_state (state node) (state_map self)))
             ∩ list_to_set (goal self) : gset Fluent)) ∧
  air_cargo_p1 = Ok p1 ∧
  h_ignore_preconditions p1 (mkNode (initial_state_TF p1)) = 2 ∧
  (∃ st, run p1 (initial_state_TF p1) p1_plan = Ok st ∧
         h_ignore_preconditions p1 (mkNode st) = 0).
Proof.
  split_and!.
  - intros self node Hsym. unfold h_ignore_preconditions. cbn zeta.
    apply size_shared_printed. intros f [Hf|Hf]%elem_of_app; apply Hsym, elem_of_app.
    + left. apply (decode_state_in_vocab (state node)). by right.
    + by right.
  - by vm_compute.
  - by vm_compute.
  - eexists. split; by vm_compute.
Qed.

(** C8 on the initial state of [air_cargo_p1]: the two goal fluents are
    its shared fluents. *)
Lemma h_ignore_preconditions_counts_unmet_goals_witness :
  h_ignore_preconditions p1 (mkNode (initial_state_TF p1))
  = size (list_to_set (neg (decode_state (initial_state_TF p1) (state_map p1)))
          ∩ list_to_set (goal p1) : gset Fluent).
Proof.
  apply (proj1 h_ignore_preconditions_counts_unmet_goals p1 (mkNode (initial_state_TF p1))).
  apply Forall_forall. unfold symbol_args.
  apply (bool_decide_unpack _). by vm_compute.
Defined.

(** * Further properties of the transition model *)

Local Open Scope nat_scope.

(** ** States stay parallel to the vocabulary *)

Lemma encode_state_length (fs : FluentState) (vocab : list Fluent) (st : State) :
  encode_state fs vocab = Ok st → length st = length vocab.
Proof.
  revert st. induction vocab as [|f vocab IH]; intros st; cbn [encode_state].
  - by intros [= <-].
  - destruct (decide (f ∈ pos fs)); [|destruct (decide (f ∈ neg fs)); [|done]];
      (destruct (encode_state fs vocab) as [tf|]; [|done]);
      intros [= <-]; cbn [length]; f_equal; by apply IH.
Qed.

(** Whatever the state and the action passed, a state that [result]
    returns has one truth value per fluent of the vocabulary. *)
Lemma result_length (self : AirCargoProblem) (st st' : State) (a : Action) :
  result self st a = Ok st' → length st' = length (state_map self).
Proof.
  unfold result. cbn zeta. destruct (decide _); [|done]. apply encode_state_length.
Qed.

Lemma run_length (self : AirCargoProblem) (plan : list Action) (st st' : State) :
  length st = length (state_map self) →
  run self st plan = Ok st' → length st' = length (state_map self).
Proof.
  revert st. induction plan as [|a plan IH]; intros st Hlen; cbn [run].
  - by intros [= <-].
  - destruct (result self st a) as [st1|] eqn:Hres; [|done]. cbn.
    apply IH. by eapply result_length.
Qed.

Lemma init_inv (cargos planes airports : list string) (initial : FluentState)
    (goal : list Fluent) (self : AirCargoProblem) :
  AirCargoProblem_init cargos planes airports initial goal = Ok self →
  self = mkAirCargoProblem (pos initial ++ neg initial)
           (encoding (pos initial) (pos initial ++ neg initial))
           goal cargos planes airports (get_actions cargos planes airports).
Proof.
  unfold AirCargoProblem_init. rewrite encode_state_initial. by intros [= <-].
Qed.

(** ** The initial state *)

Lemma decode_encoding (positive vocab : list Fluent) :
  decode_state (encoding positive vocab) vocab
  = mkFluentState (filter (λ f, f ∈ positive) vocab) (filter (λ f, f ∉ positive) vocab).
Proof.
  induction vocab as [|f vocab IH]; [done|].
  unfold encoding in *. cbn [fmap list_fmap decode_state]. rewrite IH. cbn [pos neg].
  destruct (decide (f ∈ positive)) as [Hf|Hf].
  - rewrite bool_decide_eq_true_2 by done.
    rewrite filter_cons_True by done. by rewrite filter_cons_False by tauto.
  - rewrite bool_decide_eq_false_2 by done.
    rewrite filter_cons_False by done. by rewrite filter_cons_True by done.
Qed.

(** X1. For a constructed problem whose two initial lists share no fluent,
    the initial state the constructor encoded decodes back to the two lists
    as they were given. *)
Theorem init_decodes_to_initial (cargos planes airports : list string)
    (initial : FluentState) (goal : list Fluent) (self : AirCargoProblem) :
  (∀ f, f ∈ pos initial → f ∉ neg initial) →
  AirCargoProblem_init cargos planes airports initial goal = Ok self →
  decode_state (initial_state_TF self) (state_map self) = initial.
Proof.
  intros Hdisj ->%init_inv.
  cbn [initial_state_TF state_map]. rewrite decode_encoding, !filter_app.
  destruct initial as [ps ns]. cbn [pos neg] in *. f_equal.
  - rewrite (filter_all (λ f, f ∈ ps) ps) by by apply Forall_forall.
    rewrite (filter_none (λ f, f ∈ ps) ns); [by rewrite app_nil_r|].
    apply Forall_forall. intros f Hn Hp. by apply (Hdisj f).
  - rewrite (filter_none (λ f, f ∉ ps) ps) by (apply Forall_forall; tauto).
    rewrite (filter_all (λ f, f ∉ ps) ns); [done|].
    apply Forall_forall. intros f Hn Hp. by apply (Hdisj f).
Qed.

Lemma init_decodes_to_initial_witness :
  decode_state (initial_state_TF p1) (state_map p1)
  = mkFluentState
      [At "C1" "SFO"; At "C2" "JFK"; At "P1" "SFO"; At "P2" "JFK"]
      [At "C1" "JFK"; At "C2" "SFO"; At "P1" "JFK"; At "P2" "SFO";
       In "C1" "P1"; In "C1" "P2"; In "C2" "P1"; In "C2" "P2"].
Proof.
  apply (init_decodes_to_initial ["C1"; "C2"] ["P1"; "P2"] ["JFK"; "SFO"] _
           [At "C1" "JFK"; At "C2" "SFO"] p1).
  - apply Forall_forall. by_evaluation.
  - by vm_compute.
Defined.

(** ** Reachable states *)

(** X2. For a problem constructed from initial lists that share no fluent and
    repeat none, every state reached from the initial state, by whatever
    actions [result] accepts, has the length of the vocabulary and decodes
    to a disjoint and exhaustive partition of it. *)
Theorem reachable_states_partition (cargos planes airports : list string)
    (initial : FluentState) (goal : list Fluent) (self : AirCargoProblem)
    (plan : list Action) (st : State) :
  NoDup (pos initial ++ neg initial) →
  AirCargoProblem_init cargos planes airports initial goal = Ok self →
  run self (initial_state_TF self) plan = Ok st →
  length st = length (state_map self) ∧
  partition_of (state_map self) (decode_state st (state_map self)).
Proof.
  intros Hnd Hself%init_inv Hrun.
  assert (state_map self = pos initial ++ neg initial) as Hmap by by rewrite Hself.
  assert (length (initial_state_TF self) = length (state_map self)) as Hlen0.
  { rewrite Hself. apply length_encoding. }
  pose proof (run_length self plan _ st Hlen0 Hrun) as Hlen.
  split; [done|]. apply decode_state_partition; [by rewrite Hmap|done].
Qed.

Lemma reachable_states_partition_witness :
  ∃ st, run p1 (initial_state_TF p1) p1_plan = Ok st ∧
        partition_of (state_map p1) (decode_state st (state_map p1)).
Proof.
  eexists. split; [by vm_compute|].
  eapply (reachable_states_partition ["C1"; "C2"] ["P1"; "P2"] ["JFK"; "SFO"]
            (mkFluentState
               [At "C1" "SFO"; At "C2" "JFK"; At "P1" "SFO"; At "P2" "JFK"]
               [At "C1" "JFK"; At "C2" "SFO"; At "P1" "JFK"; At "P2" "SFO";
                In "C1" "P1"; In "C1" "P2"; In "C2" "P1"; In "C2" "P2"])
            [At "C1" "JFK"; At "C2" "SFO"] p1 p1_plan).
  - by_evaluation.
  - by vm_compute.
  - by vm_compute.
Defined.

(** ** What a transition changes *)

Lemma encode_state_Ok_inv (fs : FluentState) (vocab : list Fluent) (st : State) :
  encode_state fs vocab = Ok st → st = encoding (pos fs) vocab.
Proof.
  revert st. induction vocab as [|f vocab IH]; intros st; cbn [encode_state].
  - by intros [= <-].
  - unfold encoding. cbn [fmap list_fmap].
    destruct (decide (f ∈ pos fs)) as [Hp|Hp].
    + rewrite bool_decide_eq_true_2 by done.
      destruct (encode_state fs vocab) as [tf|]; [|done]. intros [= <-].
      f_equal. by apply IH.
    + rewrite bool_decide_eq_false_2 by done.
      destruct (decide (f ∈ neg fs)); [|done].
      destruct (encode_state fs vocab) as [tf|]; [|done]. intros [= <-].
      f_equal. by apply IH.
Qed.

Lemma result_Ok_inv (self : AirCargoProblem) (st st' : State) (a : Action) :
  result self st a = Ok st' →
  action_string a ∈ action_string <$> actions self st ∧
  st' = encoding (new_pos self st a) (state_map self).
Proof.
  unfold result. cbn zeta. destruct (decide _) as [Hin|]; [|done].
  intros Henc%encode_state_Ok_inv. done.
Qed.

Lemma decode_pos_lookup (st : State) (vocab : list Fluent) (i : nat) (f : Fluent) :
  NoDup vocab → vocab !! i = Some f →
  f ∈ pos (decode_state st vocab) ↔ st !! i = Some true.
Proof.
  intros Hnd Hi. rewrite elem_of_decode_pos. split.
  - intros (j&Hj&Hf). by rewrite (NoDup_lookup _ _ _ _ Hnd Hi Hf).
  - intros Hb. by exists i.
Qed.

(** X3. Over a vocabulary without repetition, a successful [result] makes the
    add effects true, makes the delete effects that are not add effects
    false, and leaves every other tracked fluent as it was. *)
Theorem result_frame (self : AirCargoProblem) (st st' : State) (a : Action) :
  NoDup (state_map self) →
  length st = length (state_map self) →
  result self st a = Ok st' →
  ∀ i f, state_map self !! i = Some f →
    (f ∈ effect_add a → st' !! i = Some true) ∧
    (f ∉ effect_add a → f ∈ effect_rem a → st' !! i = Some false) ∧
    (f ∉ effect_add a → f ∉ effect_rem a → st' !! i = st !! i).
Proof.
  intros Hnd Hlen [_ ->]%result_Ok_inv i f Hi.
  unfold encoding. rewrite list_lookup_fmap, Hi. cbn [fmap option_fmap option_map].
  split_and!.
  - intros Hadd. f_equal. apply bool_decide_eq_true_2, elem_of_new_pos. by right.
  - intros Hadd Hrem. f_equal. apply bool_decide_eq_false_2.
    rewrite elem_of_new_pos. tauto.
  - intros Hadd Hrem. destruct (lookup_lt_is_Some_2 st i) as [b Hb].
    { rewrite Hlen. by eapply lookup_lt_Some. }
    rewrite Hb. f_equal. destruct b.
    + apply bool_decide_eq_true_2, elem_of_new_pos. left. split; [|done].
      by apply (decode_pos_lookup st _ i).
    + apply bool_decide_eq_false_2. rewrite elem_of_new_pos.
      intros [[Hp _]|?]; [|done].
      apply (decode_pos_lookup st _ i) in Hp; [|done..]. congruence.
Qed.

Lemma result_frame_witness :
  ∃ st', result p1 (initial_state_TF p1) (Fly "P1" "SFO" "JFK") = Ok st' ∧
         st' !! 0 = initial_state_TF p1 !! 0.
Proof.
  eexists. split; [by vm_compute|].
  refine (proj2 (proj2 (result_frame p1 (initial_state_TF p1) _ (Fly "P1" "SFO" "JFK")
                          _ _ _ 0 (At "C1" "SFO") _)) _ _).
  - by_evaluation.
  - by vm_compute.
  - by vm_compute.
  - by vm_compute.
  - by_evaluation.
  - by_evaluation.
Defined.

(** ** Goals outside the vocabulary *)

Lemma goal_test_true_iff (self : AirCargoProblem) (st : State) :
  goal_test self st = true ↔
  ∀ f, f ∈ goal self → f ∈ pos (decode_state st (state_map self)).
Proof.
  unfold goal_test, tell, pos_sentence. cbn [clauses app].
  induction (goal self) as [|g gs IH]; cbn [all_clauses_in clauses].
  - split; [intros _ f Hf; by inversion Hf | done].
  - destruct (decide (g ∈ pos (decode_state st (state_map self)))) as [Hg|Hg].
    + rewrite IH. split.
      * intros H f [->|?]%elem_of_cons; auto.
      * intros H f Hf. apply H. by right.
    + split; [done|]. intros H. destruct Hg. apply H. by left.
Qed.

(** X4. The constructor accepts a goal fluent that is not in the vocabulary;
    the goal test is then false in every state. *)
Theorem goal_test_untracked_goal (self : AirCargoProblem) (st : State) (g : Fluent) :
  g ∈ goal self → g ∉ state_map self → goal_test self st = false.
Proof.
  intros Hg Hv. apply not_true_is_false. intros Hgoal.
  apply Hv, (decode_state_in_vocab st). left.
  by apply (proj1 (goal_test_true_iff self st) Hgoal).
Qed.

Lemma goal_test_untracked_goal_witness :
  ∃ self,
    AirCargoProblem_init ["C1"] ["P1"] ["SFO"; "JFK"]
      (mkFluentState [At "C1" "SFO"; At "P1" "SFO"] [In "C1" "P1"])
      [At "C1" "JFK"] = Ok self ∧
    goal_test self [true; true; true] = false.
Proof.
  eexists. split; [vm_compute; reflexivity|].
  apply (goal_test_untracked_goal _ _ (At "C1" "JFK")).
  - by_evaluation.
  - by_evaluation.
Defined.

(** ** The heuristic and the goal *)

Lemma size_list_to_set_le `{Countable K} (l : list K) :
  size (list_to_set l : gset K) ≤ length l.
Proof.
  induction l as [|x l IH]; [done|].
  rewrite list_to_set_cons, size_union_alt, size_singleton. cbn [length].
  assert (list_to_set l ∖ {[x]} ⊆ (list_to_set l : gset K)) as Hle%subseteq_size
    by (by intros y [? _]%elem_of_difference).
  lia.
Qed.

(** X5. [h_ignore_preconditions] never exceeds the number of goal fluents. *)
Theorem h_ignore_preconditions_le_goal (self : AirCargoProblem) (node : Node) :
  h_ignore_preconditions self node ≤ length (goal self).
Proof.
  unfold h_ignore_preconditions. cbn zeta.
  etrans; [apply subseteq_size, intersection_subseteq_r|].
  etrans; [apply size_list_to_set_le|]. by rewrite length_fmap.
Qed.

Lemma h_ignore_preconditions_unmet (self : AirCargoProblem) (st : State) :
  (∀ f, f ∈ state_map self ++ goal self → symbol_args f) →
  h_ignore_preconditions self (mkNode st) = size (unmet_goals self st).
Proof.
  intros Hsym. unfold h_ignore_preconditions, unmet_goals. cbn zeta.
  apply size_shared_printed. intros f [Hf|Hf]%elem_of_app; apply Hsym, elem_of_app.
  - left. apply (decode_state_in_vocab st). by right.
  - by right.
Qed.

Lemma unmet_goals_empty_iff (self : AirCargoProblem) (st : State) :
  NoDup (state_map self) → length st = length (state_map self) →
  (∀ g, g ∈ goal self → g ∈ state_map self) →
  unmet_goals self st = ∅ ↔ goal_test self st = true.
Proof.
  intros Hnd Hlen Hgoal.
  destruct (decode_state_partition st _ Hnd Hlen) as [Hex Hdisj].
  rewrite goal_test_true_iff. unfold unmet_goals. split.
  - intros Hempty g Hg. destruct (proj1 (Hex g) (Hgoal g Hg)) as [?|Hn]; [done|].
    assert (g ∈ (∅ : gset Fluent)) as []%not_elem_of_empty.
    rewrite <- Hempty. by rewrite elem_of_intersection, !elem_of_list_to_set.
  - intros Hpos. apply set_eq. intros g.
    rewrite elem_of_intersection, !elem_of_list_to_set. split.
    + intros [Hn Hg]. destruct (Hdisj g). split; [by apply Hpos|done].
    + by intros ?%not_elem_of_empty.
Qed.

(** X6. On a scenario over symbols whose vocabulary has no repetition and
    contains the goal fluents, [h_ignore_preconditions] is zero exactly on
    the states that pass the goal test. *)
Theorem h_ignore_preconditions_zero_iff_goal (self : AirCargoProblem) (st : State) :
  (∀ f, f ∈ state_map self ++ goal self → symbol_args f) →
  NoDup (state_map self) →
  length st = length (state_map self) →
  (∀ g, g ∈ goal self → g ∈ state_map self) →
  h_ignore_preconditions self (mkNode st) = 0 ↔ goal_test self st = true.
Proof.
  intros Hsym Hnd Hlen Hgoal.
  rewrite h_ignore_preconditions_unmet by done.
  rewrite <- unmet_goals_empty_iff by done.
  rewrite size_empty_iff. by unfold_leibniz.
Qed.

Lemma p1_symbols : ∀ f, f ∈ state_map p1 ++ goal p1 → symbol_args f.
Proof. apply Forall_forall. unfold symbol_args. by_evaluation. Qed.

Lemma h_ignore_preconditions_zero_iff_goal_witness :
  h_ignore_preconditions p1 (mkNode (initial_state_TF p1)) = 0 ↔
  goal_test p1 (initial_state_TF p1) = true.
Proof.
  apply h_ignore_preconditions_zero_iff_goal.
  - apply p1_symbols.
  - by_evaluation.
  - by vm_compute.
  - apply Forall_forall. by_evaluation.
Defined.

(** One transition by an action with at most one add effect meets at most
    one more goal fluent. *)
Lemma unmet_goals_step (self : AirCargoProblem) (st st' : State) (a : Action) :
  NoDup (state_map self) → length st = length (state_map self) →
  length (effect_add a) ≤ 1 →
  result self st a = Ok st' →
  size (unmet_goals self st) ≤ S (size (unmet_goals self st')).
Proof.
  intros Hnd Hlen Hadd [_ ->]%result_Ok_inv.
  destruct (decode_state_partition st _ Hnd Hlen) as [Hex Hdisj].
  assert (unmet_goals self st
          ⊆ list_to_set (effect_add a)
            ∪ unmet_goals self (encoding (new_pos self st a) (state_map self))) as Hsub.
  { intros g. unfold unmet_goals.
    rewrite elem_of_union, !elem_of_intersection, !elem_of_list_to_set.
    rewrite elem_of_decode_encoding_neg, elem_of_new_pos.
    intros [Hn Hg]. destruct (decide (g ∈ effect_add a)); [by left|right].
    split; [|done]. split; [apply Hex; by right|].
    intros [[Hp _]|?]; [|done]. by destruct (Hdisj g). }
  apply subseteq_size in Hsub. etrans; [exact Hsub|].
  pose proof (size_list_to_set_le (effect_add a)) as Hle.
  pose proof (size_union_alt (list_to_set (effect_add a) : gset Fluent)
                (unmet_goals self (encoding (new_pos self st a) (state_map self)))) as Hu.
  assert (unmet_goals self (encoding (new_pos self st a) (state_map self))
            ∖ list_to_set (effect_add a)
          ⊆ unmet_goals self (encoding (new_pos self st a) (state_map self)))
    as Hd%subseteq_size by (by intros y [? _]%elem_of_difference).
  lia.
Qed.

Lemma grounded_one_add_effect (cargos planes airports : list string) (a : Action) :
  a ∈ get_actions cargos planes airports → length (effect_add a) = 1.
Proof.
  unfold get_actions. rewrite !elem_of_app.
  intros [(?&?&?&_&_&_&->)%elem_of_load_actions
         |[(?&?&?&_&_&_&->)%elem_of_unload_actions
          |(?&?&?&_&_&_&_&->)%elem_of_fly_actions]]; done.
Qed.

(** X7. [h_ignore_preconditions] is admissible for plans of grounded actions:
    on a scenario over symbols whose vocabulary has no repetition, a plan of
    grounded actions that leads from a state to a goal state has at least
    as many actions as the heuristic says in that state. *)
Theorem h_ignore_preconditions_admissible (self : AirCargoProblem)
    (cargos planes airports : list string) (plan : list Action) (st st' : State) :
  (∀ f, f ∈ state_map self ++ goal self → symbol_args f) →
  NoDup (state_map self) →
  length st = length (state_map self) →
  Forall (λ a, a ∈ get_actions cargos planes airports) plan →
  run self st plan = Ok st' →
  goal_test self st' = true →
  h_ignore_preconditions self (mkNode st) ≤ length plan.
Proof.
  intros Hsym Hnd Hlen Hplan Hrun Hgoal.
  rewrite h_ignore_preconditions_unmet by done.
  revert st Hlen Hrun. induction Hplan as [|a plan Ha _ IH]; intros st Hlen; cbn [run].
  - intros [= ->]. cbn [length].
    destruct (decode_state_partition st' _ Hnd Hlen) as [_ Hdisj].
    assert (unmet_goals self st' = ∅) as ->; [|by rewrite size_empty].
    apply set_eq. intros g. unfold unmet_goals.
    rewrite elem_of_intersection, !elem_of_list_to_set. split.
    + intros [Hn Hg]. destruct (Hdisj g). split; [|done].
      by apply (proj1 (goal_test_true_iff self st') Hgoal).
    + by intros ?%not_elem_of_empty.
  - destruct (result self st a) as [st1|] eqn:Hres; [|done]. cbn. intros Hrun.
    assert (size (unmet_goals self st) ≤ S (size (unmet_goals self st1))) as Hstep.
    { apply (unmet_goals_step self st st1 a Hnd Hlen); [|done].
      by erewrite grounded_one_add_effect. }
    specialize (IH st1 (result_length _ _ _ _ Hres) Hrun). cbn [length]. lia.
Qed.

Lemma h_ignore_preconditions_admissible_witness :
  h_ignore_preconditions p1 (mkNode (initial_state_TF p1)) ≤ length p1_plan.
Proof.
  eapply (h_ignore_preconditions_admissible p1 ["C1"; "C2"] ["P1"; "P2"] ["JFK"; "SFO"]).
  - apply p1_symbols.
  - by_evaluation.
  - by vm_compute.
  - by_evaluation.
  - by vm_compute.
  - by vm_compute.
Defined.

(** ** Grounded actions and the lookup by printed name *)

Lemma printed_args3_inj (op x y z x' y' z' : string) :
  is_identifier x → is_identifier x' → is_identifier y → is_identifier y' →
  py_format op [x; y; z] = py_format op [x'; y'; z'] → x = x' ∧ y = y' ∧ z = z'.
Proof.
  intros Hx%is_identifier_chars Hx'%is_identifier_chars
         Hy%is_identifier_chars Hy'%is_identifier_chars Heq.
  unfold py_format, py_tuple_str in Heq. cbn [String.concat] in Heq.
  apply (inj (String.append op)), (inj (String.append "(")) in Heq.
  apply append_char_cancel in Heq.
  apply identifier_prefix in Heq as [-> Heq]; [|done..].
  apply (inj (String.append " ")) in Heq.
  apply identifier_prefix in Heq as [-> Heq]; [|done..].
  by apply (inj (String.append " ")) in Heq.
Qed.

(** The three shapes of a grounded action, with its objects. *)
Lemma elem_of_get_actions (cargos planes airports : list string) (a : Action) :
  a ∈ get_actions cargos planes airports →
  (∃ c p ap, c ∈ cargos ∧ p ∈ planes ∧ ap ∈ airports ∧ a = Load c p ap) ∨
  (∃ c p ap, c ∈ cargos ∧ p ∈ planes ∧ ap ∈ airports ∧ a = Unload c p ap) ∨
  (∃ p fr to, p ∈ planes ∧ fr ∈ airports ∧ to ∈ airports ∧ fr ≠ to ∧ a = Fly p fr to).
Proof.
  unfold get_actions.
  rewrite !elem_of_app, elem_of_load_actions, elem_of_unload_actions,
    elem_of_fly_actions. done.
Qed.

(** Over objects named by identifiers, grounded actions that print alike
    are the same action. *)
Lemma grounded_action_string_inj (cargos planes airports : list string) (a g : Action) :
  Forall (λ x : string, is_identifier x) (cargos ++ planes ++ airports) →
  a ∈ get_actions cargos planes airports →
  g ∈ get_actions cargos planes airports →
  action_string a = action_string g → a = g.
Proof.
  intros Hid Ha Hg Heq.
  assert (∀ x, x ∈ cargos ∨ x ∈ planes ∨ x ∈ airports → is_identifier x) as Hname.
  { intros x Hx. apply (proj1 (Forall_forall _ _) Hid). rewrite !elem_of_app. tauto. }
  apply elem_of_get_actions in Ha, Hg.
  destruct Ha as [(c&p&ap&?&?&?&->)|[(c&p&ap&?&?&?&->)|(p&fr&to&?&?&?&?&->)]],
           Hg as [(c'&p'&ap'&?&?&?&->)|[(c'&p'&ap'&?&?&?&->)|(p'&fr'&to'&?&?&?&?&->)]];
    unfold action_string in Heq; cbn [name args Load Unload Fly] in Heq;
    try discriminate Heq;
    apply printed_args3_inj in Heq as (->&->&->); auto.
Qed.

Lemma result_grounded_enabled (self : AirCargoProblem) (st st' : State) (a : Action) :
  Forall (λ x : string, is_identifier x) (cargos self ++ planes self ++ airports self) →
  actions_list self = get_actions (cargos self) (planes self) (airports self) →
  a ∈ actions_list self →
  result self st a = Ok st' → a ∈ actions self st.
Proof.
  intros Hid Hlist Ha [(g&Heq&Hg)%list_elem_of_fmap _]%result_Ok_inv.
  assert (g ∈ actions_list self) as Hg' by by apply elem_of_actions in Hg as [? _].
  rewrite Hlist in Ha, Hg'.
  by rewrite (grounded_action_string_inj _ _ _ a g Hid Ha Hg' Heq).
Qed.

(** X8. For a constructed problem over objects named by identifiers and a state
    parallel to its vocabulary, [result] applied to one of the problem's own
    grounded actions succeeds exactly when the action is enabled. *)
Theorem result_grounded_iff_enabled (cargos planes airports : list string)
    (initial : FluentState) (goal : list Fluent) (self : AirCargoProblem)
    (st : State) (a : Action) :
  Forall (λ x : string, is_identifier x) (cargos ++ planes ++ airports) →
  AirCargoProblem_init cargos planes airports initial goal = Ok self →
  length st = length (state_map self) →
  a ∈ actions_list self →
  (∃ st', result self st a = Ok st') ↔ a ∈ actions self st.
Proof.
  intros Hid Hself%init_inv Hlen Ha. split.
  - intros [st' Hres]. eapply result_grounded_enabled; [| |done..]; by rewrite Hself.
  - intros Hen. eexists. rewrite result_available by by apply enabled_available.
    apply encode_new_state. intros f. by apply decode_state_exhaustive.
Qed.

Lemma result_grounded_iff_enabled_witness :
  (∃ st', result p1 (initial_state_TF p1) (Unload "C1" "P1" "SFO") = Ok st') ↔
  Unload "C1" "P1" "SFO" ∈ actions p1 (initial_state_TF p1).
Proof.
  apply (result_grounded_iff_enabled ["C1"; "C2"] ["P1"; "P2"] ["JFK"; "SFO"]
           (mkFluentState
              [At "C1" "SFO"; At "C2" "JFK"; At "P1" "SFO"; At "P2" "JFK"]
              [At "C1" "JFK"; At "C2" "SFO"; At "P1" "JFK"; At "P2" "SFO";
               In "C1" "P1"; In "C1" "P2"; In "C2" "P1"; In "C2" "P2"])
           [At "C1" "JFK"; At "C2" "SFO"]).
  - by_evaluation.
  - by vm_compute.
  - by vm_compute.
  - by_evaluation.
Defined.

(** ** Locations of objects *)

(** Every grounded action has one add effect, and it relocates the object
    located by one of the action's positive preconditions, which the action
    deletes. *)
Lemma grounded_relocates (cargos planes airports : list string) (a : Action) :
  a ∈ get_actions cargos planes airports →
  ∃ e r, effect_add a = [e] ∧ r ∈ precond_pos a ∧ r ∈ effect_rem a ∧
         subject r = subject e.
Proof.
  intros [(c&p&ap&_&_&_&->)|[(c&p&ap&_&_&_&->)|(p&fr&to&_&_&_&_&->)]]%elem_of_get_actions.
  - exists (In c p), (At c ap). cbn. split_and!; [done| |by left|done].
    right. by left.
  - exists (At c ap), (In c p). cbn. split_and!; [done| |by left|done].
    right. by left.
  - exists (At p to), (At p fr). cbn. split_and!; [done|by left|by left|done].
Qed.

Lemma enabled_step_pos (self : AirCargoProblem) (cargos planes airports : list string)
    (st st' : State) (a : Action) :
  a ∈ get_actions cargos planes airports →
  a ∈ actions self st →
  result self st a = Ok st' →
  ∃ e r, r ∈ pos (decode_state st (state_map self)) ∧ subject r = subject e ∧
    ∀ f, f ∈ pos (decode_state st' (state_map self)) →
         (f ∈ pos (decode_state st (state_map self)) ∧ f ≠ r) ∨ f = e.
Proof.
  intros (e&r&Hadd&Hpre&Hrem&Hsub)%grounded_relocates (_&Hpos&_)%elem_of_actions
         [_ ->]%result_Ok_inv.
  exists e, r. split_and!; [by apply Hpos|done|].
  intros f [_ Hf]%elem_of_decode_encoding_pos.
  apply elem_of_new_pos in Hf as [[Hf Hnr]|Hf].
  - left. split; [done|]. by intros ->.
  - right. rewrite Hadd in Hf. by apply list_elem_of_singleton in Hf.
Qed.

Lemma single_location_step (self : AirCargoProblem) (cargos planes airports : list string)
    (st st' : State) (a : Action) :
  a ∈ get_actions cargos planes airports →
  a ∈ actions self st →
  result self st a = Ok st' →
  single_location (decode_state st (state_map self)) →
  single_location (decode_state st' (state_map self)).
Proof.
  intros Ha Hen Hres Hone.
  destruct (enabled_step_pos _ _ _ _ _ _ _ Ha Hen Hres) as (e&r&Hr&Hsub&Hstep).
  intros f g Hf Hg Hfg.
  destruct (Hstep f Hf) as [[Hfp Hfr]| ->], (Hstep g Hg) as [[Hgp Hgr]| ->]; [| | |done].
  - by apply Hone.
  - destruct Hfr. apply Hone; [done..|]. by rewrite Hfg.
  - destruct Hgr. apply Hone; [done..|]. by rewrite <- Hfg.
Qed.

Lemma nowhere_step (self : AirCargoProblem) (cargos planes airports : list string)
    (st st' : State) (a : Action) (x : string) :
  a ∈ get_actions cargos planes airports →
  a ∈ actions self st →
  result self st a = Ok st' →
  nowhere x (decode_state st (state_map self)) →
  nowhere x (decode_state st' (state_map self)).
Proof.
  intros Ha Hen Hres Hno.
  destruct (enabled_step_pos _ _ _ _ _ _ _ Ha Hen Hres) as (e&r&Hr&Hsub&Hstep).
  intros f Hf. destruct (Hstep f Hf) as [[Hfp _]| ->]; [by apply Hno|].
  rewrite <- Hsub. by apply Hno.
Qed.

Section reachable.
Variables (cargo_ids plane_ids airport_ids : list string) (initial : FluentState)
  (goal : list Fluent) (self : AirCargoProblem).
Hypothesis identifiers :
  Forall (λ x : string, is_identifier x) (cargo_ids ++ plane_ids ++ airport_ids).
Hypothesis constructed :
  AirCargoProblem_init cargo_ids plane_ids airport_ids initial goal = Ok self.

Lemma constructed_actions_list :
  actions_list self = get_actions cargo_ids plane_ids airport_ids.
Proof. by rewrite (init_inv _ _ _ _ _ _ constructed). Qed.

Lemma constructed_identifiers :
  Forall (λ x : string, is_identifier x) (cargos self ++ planes self ++ airports self).
Proof. by rewrite (init_inv _ _ _ _ _ _ constructed). Qed.

(** A property of decoded states that every enabled grounded action
    keeps holds after every plan of the problem's actions. *)
Lemma run_invariant (Q : FluentState → Prop) (plan : list Action) (st st' : State) :
  (∀ st st' a, a ∈ get_actions cargo_ids plane_ids airport_ids → a ∈ actions self st →
               result self st a = Ok st' →
               Q (decode_state st (state_map self)) →
               Q (decode_state st' (state_map self))) →
  Forall (λ a, a ∈ actions_list self) plan →
  run self st plan = Ok st' →
  Q (decode_state st (state_map self)) → Q (decode_state st' (state_map self)).
Proof.
  intros Hstep Hplan. revert st.
  induction Hplan as [|a plan Ha _ IH]; intros st; cbn [run].
  - by intros [= ->].
  - destruct (result self st a) as [st1|] eqn:Hres; [|done]. cbn. intros Hrun HQ.
    apply (IH st1 Hrun). apply (Hstep st st1 a); [|..|done|done].
    + by rewrite <- constructed_actions_list.
    + eapply result_grounded_enabled; [apply constructed_identifiers| |done..].
      rewrite constructed_actions_list. by rewrite (init_inv _ _ _ _ _ _ constructed).
Qed.
End reachable.

(** X9. For a constructed problem over objects named by identifiers: if the
    positive fluents of a state locate no object twice, neither do those of
    any state a plan of the problem's actions leads to from it. *)
Theorem single_location_preserved (cargos planes airports : list string)
    (initial : FluentState) (goal : list Fluent) (self : AirCargoProblem)
    (plan : list Action) (st st' : State) :
  Forall (λ x : string, is_identifier x) (cargos ++ planes ++ airports) →
  AirCargoProblem_init cargos planes airports initial goal = Ok self →
  Forall (λ a, a ∈ actions_list self) plan →
  run self st plan = Ok st' →
  single_location (decode_state st (state_map self)) →
  single_location (decode_state st' (state_map self)).
Proof.
  intros Hid Hself. apply (run_invariant _ _ _ _ _ _ Hid Hself).
  intros st0 st1 a. apply single_location_step.
Qed.

(** X10. For a constructed problem over objects named by identifiers: an object
    that no positive fluent of a state locates is located by none in any
    state a plan of the problem's actions leads to from it. *)
Theorem nowhere_preserved (cargos planes airports : list string)
    (initial : FluentState) (goal : list Fluent) (self : AirCargoProblem)
    (plan : list Action) (st st' : State) (x : string) :
  Forall (λ x : string, is_identifier x) (cargos ++ planes ++ airports) →
  AirCargoProblem_init cargos planes airports initial goal = Ok self →
  Forall (λ a, a ∈ actions_list self) plan →
  run self st plan = Ok st' →
  nowhere x (decode_state st (state_map self)) →
  nowhere x (decode_state st' (state_map self)).
Proof.
  intros Hid Hself. apply (run_invariant _ _ _ _ _ _ Hid Hself (nowhere x)).
  intros st0 st1 a. apply nowhere_step.
Qed.

Lemma single_location_Forall (fs : FluentState) :
  Forall (λ f, Forall (λ g, subject f = subject g → f = g) (pos fs)) (pos fs) →
  single_location fs.
Proof.
  intros Hall f g Hf Hg.
  apply (proj1 (Forall_forall _ _) (proj1 (Forall_forall _ _) Hall f Hf) g Hg).
Qed.

Lemma nowhere_Forall (x : string) (fs : FluentState) :
  Forall (λ f, subject f ≠ x) (pos fs) → nowhere x fs.
Proof. intros Hall f Hf. by apply (proj1 (Forall_forall _ _) Hall f Hf). Qed.

Lemma single_location_preserved_witness :
  ∃ st, run p1 (initial_state_TF p1) p1_plan = Ok st ∧
        single_location (decode_state st (state_map p1)).
Proof.
  eexists. split; [by vm_compute|].
  eapply (single_location_preserved ["C1"; "C2"] ["P1"; "P2"] ["JFK"; "SFO"]
            (mkFluentState
               [At "C1" "SFO"; At "C2" "JFK"; At "P1" "SFO"; At "P2" "JFK"]
               [At "C1" "JFK"; At "C2" "SFO"; At "P1" "JFK"; At "P2" "SFO";
                In "C1" "P1"; In "C1" "P2"; In "C2" "P1"; In "C2" "P2"])
            [At "C1" "JFK"; At "C2" "SFO"] p1 p1_plan (initial_state_TF p1)).
  - by_evaluation.
  - by vm_compute.
  - by_evaluation.
  - by vm_compute.
  - apply single_location_Forall. by_evaluation.
Defined.

(** In [air_cargo_p4] no fluent locates the plane P3, at the start and
    after the plan for that scenario. *)
Lemma nowhere_preserved_witness :
  ∃ st, run p4 (initial_state_TF p4) p4_plan = Ok st ∧
        nowhere "P3" (decode_state st (state_map p4)).
Proof.
  eexists. split; [by vm_compute|].
  eapply (nowhere_preserved (cargos p4) (planes p4) (airports p4)
            (decode_state (initial_state_TF p4) (state_map p4)) (goal p4)
            p4 p4_plan (initial_state_TF p4)).
  - by_evaluation.
  - by vm_compute.
  - by_evaluation.
  - by vm_compute.
  - apply nowhere_Forall. by_evaluation.
Defined.

(** ** The scenarios *)

Lemma solves_run (self : AirCargoProblem) (plan : list Action) (st : State) :
  solves self st plan = true →
  ∃ st', run self st plan = Ok st' ∧ goal_test self st' = true.
Proof.
  revert st. induction plan as [|a plan IH]; intros st; cbn [solves run].
  - intros Hgoal. by exists st.
  - intros [_ Hrest]%andb_true_iff.
    destruct (result self st a) as [st1|]; [|done]. cbn. by apply IH.
Qed.

(** X11. The four scenario builders construct problems whose vocabulary has no
    repetition and contains the goal, over objects named by identifiers.
    In the first three no object is located twice initially; in the fourth
    the plane P2 is at two airports and the plane P3 is at none. *)
Theorem scenarios_well_formed :
  (air_cargo_p1 = Ok p1 ∧ well_formed p1 ∧
   single_location (decode_state (initial_state_TF p1) (state_map p1))) ∧
  (air_cargo_p2 = Ok p2 ∧ well_formed p2 ∧
   single_location (decode_state (initial_state_TF p2) (state_map p2))) ∧
  (air_cargo_p3 = Ok p3 ∧ well_formed p3 ∧
   single_location (decode_state (initial_state_TF p3) (state_map p3))) ∧
  (air_cargo_p4 = Ok p4 ∧ well_formed p4 ∧
   At "P2" "JFK" ∈ pos (decode_state (initial_state_TF p4) (state_map p4)) ∧
   At "P2" "YYZ" ∈ pos (decode_state (initial_state_TF p4) (state_map p4)) ∧
   nowhere "P3" (decode_state (initial_state_TF p4) (state_map p4))).
Proof.
  split_and!; try (by vm_compute); try by_evaluation;
    try (apply single_location_Forall; by_evaluation).
  apply nowhere_Forall. by_evaluation.
Qed.

(** X12. Each of [air_cargo_p2], [air_cargo_p3] and [air_cargo_p4] has a plan of
    its grounded actions (of 9, 12 and 24 actions) in which every action is
    enabled where it is applied and which ends in a state that passes the
    goal test. *)
Theorem scenarios_solvable :
  (length p2_plan = 9 ∧ solves p2 (initial_state_TF p2) p2_plan = true ∧
   ∃ st, run p2 (initial_state_TF p2) p2_plan = Ok st ∧ goal_test p2 st = true) ∧
  (length p3_plan = 12 ∧ solves p3 (initial_state_TF p3) p3_plan = true ∧
   ∃ st, run p3 (initial_state_TF p3) p3_plan = Ok st ∧ goal_test p3 st = true) ∧
  (length p4_plan = 24 ∧ solves p4 (initial_state_TF p4) p4_plan = true ∧
   ∃ st, run p4 (initial_state_TF p4) p4_plan = Ok st ∧ goal_test p4 st = true).
Proof.
  split_and!; try (by vm_compute); by apply solves_run; vm_compute.
Qed.

(** ** Actions that undo each other *)

Lemma encoding_ext_vocab (P P' vocab : list Fluent) :
  (∀ f, f ∈ vocab → f ∈ P ↔ f ∈ P') → encoding P vocab = encoding P' vocab.
Proof.
  intros HP. unfold encoding. apply list_fmap_ext. intros i f Hi.
  apply bool_decide_ext, HP. by eapply list_elem_of_lookup_2.
Qed.

(** Over a vocabulary without repetition, a state parallel to it is the
    encoding of its own positive fluents. *)
Lemma encoding_decode (st : State) (vocab : list Fluent) :
  NoDup vocab → length st = length vocab →
  encoding (pos (decode_state st vocab)) vocab = st.
Proof.
  intros Hnd Hlen. apply list_eq. intros i. unfold encoding.
  rewrite list_lookup_fmap. destruct (vocab !! i) as [f|] eqn:Hi; cbn.
  - destruct (lookup_lt_is_Some_2 st i) as [b Hb].
    { rewrite Hlen. by eapply lookup_lt_Some. }
    rewrite Hb. f_equal. destruct b.
    + apply bool_decide_eq_true_2. by apply (decode_pos_lookup st _ i).
    + apply bool_decide_eq_false_2. intros Hp.
      apply (decode_pos_lookup st _ i) in Hp; [|done..]. congruence.
  - symmetry. apply lookup_ge_None. rewrite Hlen. by apply lookup_ge_None.
Qed.

Lemma result_enabled (self : AirCargoProblem) (st : State) (a : Action) :
  length st = length (state_map self) → a ∈ actions self st →
  result self st a = Ok (encoding (new_pos self st a) (state_map self)).
Proof.
  intros Hlen Ha. rewrite result_available by by apply enabled_available.
  apply encode_new_state. intros f. by apply decode_state_exhaustive.
Qed.

(** Two enabled steps, the second of which restores the positive fluents
    of the first state, lead back to that state. *)
Lemma run_two_back (self : AirCargoProblem) (st : State) (a b : Action) :
  NoDup (state_map self) → length st = length (state_map self) →
  a ∈ actions self st →
  b ∈ actions self (encoding (new_pos self st a) (state_map self)) →
  (∀ f, f ∈ state_map self →
        f ∈ new_pos self (encoding (new_pos self st a) (state_map self)) b ↔
        f ∈ pos (decode_state st (state_map self))) →
  run self st [a; b] = Ok st.
Proof.
  intros Hnd Hlen Ha Hb Hback. cbn [run].
  rewrite (result_enabled self st a) by done. cbn.
  rewrite result_enabled by (apply length_encoding || done). cbn.
  f_equal.
  transitivity (encoding (pos (decode_state st (state_map self))) (state_map self));
    [by apply encoding_ext_vocab|by apply encoding_decode].
Qed.

(** X13. Over a vocabulary without repetition: loading a cargo into a plane
    where that is enabled, when the cargo was not in the plane, and
    unloading it again at once leads back to the same state. *)
Theorem load_unload_restores (self : AirCargoProblem) (st : State)
    (c p ap : string) :
  NoDup (state_map self) →
  length st = length (state_map self) →
  Load c p ap ∈ actions self st →
  Unload c p ap ∈ actions_list self →
  In c p ∈ neg (decode_state st (state_map self)) →
  c ≠ p →
  run self st [Load c p ap; Unload c p ap] = Ok st.
Proof.
  intros Hnd Hlen Hload Hunload Hin Hcp.
  destruct (decode_state_partition st _ Hnd Hlen) as [Hex Hdisj].
  apply elem_of_actions in Hload as Hpre. destruct Hpre as (_&Hpre&_).
  assert (At p ap ∈ pos (decode_state st (state_map self))) as Hp
    by (apply Hpre; cbn; by left).
  assert (At c ap ∈ pos (decode_state st (state_map self))) as Hc
    by (apply Hpre; cbn; right; by left).
  apply run_two_back; [done..| |].
  - apply elem_of_actions. split_and!; [done| |by intros f ?%elem_of_nil].
    intros f Hf. apply elem_of_decode_encoding_pos. rewrite elem_of_new_pos.
    cbn in Hf |- *. apply elem_of_cons in Hf as [->|Hf%list_elem_of_singleton].
    + split; [apply Hex; by left|]. left. split; [done|].
      rewrite list_elem_of_singleton. congruence.
    + subst f. split; [apply Hex; by right|]. right. by left.
  - intros f Hf. rewrite elem_of_new_pos, elem_of_decode_encoding_pos, elem_of_new_pos.
    cbn. rewrite !list_elem_of_singleton. split.
    + intros [[(_&[[? _]| ->]) Hne]| ->]; done.
    + intros Hpos. destruct (decide (f = At c ap)) as [->|Hne]; [by right|left].
      split; [|intros ->; by destruct (Hdisj (In c p))].
      split; [done|]. by left.
Qed.

(** X14. Over a vocabulary without repetition: flying a plane to an airport it
    was not at, where that is enabled, and flying it back at once leads
    back to the same state. *)
Theorem fly_back_restores (self : AirCargoProblem) (st : State) (p fr to : string) :
  NoDup (state_map self) →
  length st = length (state_map self) →
  Fly p fr to ∈ actions self st →
  Fly p to fr ∈ actions_list self →
  At p to ∈ neg (decode_state st (state_map self)) →
  run self st [Fly p fr to; Fly p to fr] = Ok st.
Proof.
  intros Hnd Hlen Hfly Hback Hto.
  destruct (decode_state_partition st _ Hnd Hlen) as [Hex Hdisj].
  apply elem_of_actions in Hfly as Hpre. destruct Hpre as (_&Hpre&_).
  assert (At p fr ∈ pos (decode_state st (state_map self))) as Hfr
    by (apply Hpre; cbn; by left).
  apply run_two_back; [done..| |].
  - apply elem_of_actions. split_and!; [done| |by intros f ?%elem_of_nil].
    intros f Hf. apply elem_of_decode_encoding_pos. rewrite elem_of_new_pos.
    cbn in Hf |- *. apply list_elem_of_singleton in Hf as ->.
    split; [apply Hex; by right|]. right. by left.
  - intros f Hf. rewrite elem_of_new_pos, elem_of_decode_encoding_pos, elem_of_new_pos.
    cbn. rewrite !list_elem_of_singleton. split.
    + intros [[(_&[[? _]| ->]) Hne]| ->]; done.
    + intros Hpos. destruct (decide (f = At p fr)) as [->|Hne]; [by right|left].
      split; [|intros ->; by destruct (Hdisj (At p to))].
      split; [done|]. by left.
Qed.

Lemma load_unload_restores_witness :
  run p1 (initial_state_TF p1) [Load "C1" "P1" "SFO"; Unload "C1" "P1" "SFO"]
  = Ok (initial_state_TF p1).
Proof.
  apply load_unload_restores.
  - by_evaluation.
  - by vm_compute.
  - by_evaluation.
  - by_evaluation.
  - by_evaluation.
  - done.
Defined.

Lemma fly_back_restores_witness :
  run p1 (initial_state_TF p1) [Fly "P1" "SFO" "JFK"; Fly "P1" "JFK" "SFO"]
  = Ok (initial_state_TF p1).
Proof.
  apply fly_back_restores.
  - by_evaluation.
  - by vm_compute.
  - by_evaluation.
  - by_evaluation.
  - by_evaluation.
Defined.

(** ** The selection of [main] *)

Lemma py_getitem_choice {A : Type} (table : list A) (i : Z) (x : A) :
  py_getitem table (i - 1) = Some x ↔
  (- Z.of_nat (length table) < i ≤ Z.of_nat (length table))%Z ∧
  table !! Z.to_nat ((i - 1) `mod` Z.of_nat (length table)) = Some x.
Proof.
  unfold py_getitem. destruct (decide (0 ≤ i - 1)%Z) as [Hi|Hi].
  - split.
    + intros Hx. pose proof (lookup_lt_Some _ _ _ Hx) as Hlt.
      split; [lia|]. rewrite Z.mod_small by lia. done.
    + intros [Hr Hx]. rewrite Z.mod_small in Hx by lia. done.
  - destruct (decide (- Z.of_nat (length table) ≤ i - 1)%Z) as [Hj|Hj].
    + assert (((i - 1) `mod` Z.of_nat (length table))%Z
              = (Z.of_nat (length table) + (i - 1))%Z) as ->.
      { rewrite <- (Z_mod_plus_full (i - 1) 1 (Z.of_nat (length table))).
        rewrite Z.mod_small by lia. lia. }
      split; [intros Hx; split; [lia|done]|by intros [_ Hx]].
    + split; [done|]. intros [Hr _]. lia.
Qed.

Lemma select_Some {A : Type} (table : list A) (choices : list Z) (sel : list A) :
  mapM (λ i, py_getitem table (i - 1)) choices = Some sel ↔
  Forall2 (λ i x, (- Z.of_nat (length table) < i ≤ Z.of_nat (length table))%Z ∧
                  table !! Z.to_nat ((i - 1) `mod` Z.of_nat (length table)) = Some x)
          choices sel.
Proof.
  rewrite mapM_Some.
  split; intros Hall; eapply Forall2_impl; [exact Hall| |exact Hall|];
    intros i x; apply py_getitem_choice.
Qed.

(** X15. [main] selects entry [i] of each table, counted from 1, for a choice
    [i] between 1 and the length of the table; a choice between 0 and the
    negated length, exclusive, selects from the end of the table (0 is the
    last entry); any other choice raises [IndexError]. *)
Theorem main_selection_wraps (p_choices s_choices : list Z)
    (problems : list (string * Outcome AirCargoProblem))
    (searches : list (string * SearchFunction * string)) :
  main_selection p_choices s_choices = Some (problems, searches) ↔
  Forall2 (λ i x, (-4 < i ≤ 4)%Z ∧ PROBLEMS !! Z.to_nat ((i - 1) `mod` 4) = Some x)
          p_choices problems ∧
  Forall2 (λ i x, (-14 < i ≤ 14)%Z ∧ SEARCHES !! Z.to_nat ((i - 1) `mod` 14) = Some x)
          s_choices searches.
Proof.
  assert (mapM (λ i, py_getitem PROBLEMS (i - 1)) p_choices = Some problems ↔
          Forall2 (λ i x, (-4 < i ≤ 4)%Z ∧
                          PROBLEMS !! Z.to_nat ((i - 1) `mod` 4) = Some x)
                  p_choices problems) as HP
    by exact (select_Some PROBLEMS p_choices problems).
  assert (mapM (λ i, py_getitem SEARCHES (i - 1)) s_choices = Some searches ↔
          Forall2 (λ i x, (-14 < i ≤ 14)%Z ∧
                          SEARCHES !! Z.to_nat ((i - 1) `mod` 14) = Some x)
                  s_choices searches) as HS
    by exact (select_Some SEARCHES s_choices searches).
  rewrite <- HP, <- HS. unfold main_selection.
  destruct (mapM _ p_choices) as [ps|]; cbn.
  - destruct (mapM _ s_choices) as [ss|]; cbn.
    + split; [by intros [= -> ->]|by intros [[= ->] [= ->]]].
    + split; [done|by intros [_ ?]].
  - split; [done|by intros [? _]].
Qed.

Example main_selection_zero :
  main_selection [0%Z; 1%Z] [14%Z]
  = Some ([("Air Cargo Problem 4", air_cargo_p4); ("Air Cargo Problem 1", air_cargo_p1)],
          [("astar_search", astar_search, "h_pg_levelsum")]).
Proof. reflexivity. Qed.

(** ** Grounded actions are listed once *)

Lemma NoDup_bind3 {A : Type} (k : string → string → string → A) (xs ys zs : list string) :
  (∀ x y z x' y' z', k x y z = k x' y' z' → x = x' ∧ y = y' ∧ z = z') →
  NoDup xs → NoDup ys → NoDup zs →
  NoDup (x ← xs; y ← ys; z ← zs; [k x y z]).
Proof.
  intros Hinj Hxs Hys Hzs. apply NoDup_bind; [|intros x _; apply NoDup_bind|done].
  - intros x x' a _ _ (y&(z&->%list_elem_of_singleton&_)%list_elem_of_bind&_)%list_elem_of_bind
      (y'&(z'&Heq%list_elem_of_singleton&_)%list_elem_of_bind&_)%list_elem_of_bind.
    by apply Hinj in Heq as (?&_&_).
  - intros y y' a _ _ (z&->%list_elem_of_singleton&_)%list_elem_of_bind
      (z'&Heq%list_elem_of_singleton&_)%list_elem_of_bind.
    by apply Hinj in Heq as (_&?&_).
  - intros y _. apply NoDup_bind; [|intros z _; apply NoDup_singleton|done].
    intros z z' a _ _ ->%list_elem_of_singleton Heq%list_elem_of_singleton.
    by apply Hinj in Heq as (_&_&?).
  - done.
Qed.

Lemma NoDup_fly_actions (planes airports : list string) :
  NoDup planes → NoDup airports → NoDup (fly_actions planes airports).
Proof.
  intros Hps Haps. unfold fly_actions.
  assert (∀ fr to a,
            a ∈ (if decide (fr ≠ to) then p ← planes; [Fly p fr to] else []) →
            ∃ p, a = Fly p fr to) as Hshape.
  { intros fr to a Ha. destruct (decide (fr ≠ to)); [|by inversion Ha].
    apply list_elem_of_bind in Ha as (p&->%list_elem_of_singleton&_). by exists p. }
  apply NoDup_bind; [|intros fr _; apply NoDup_bind|done].
  - intros fr fr' a _ _ (to&(p&->)%Hshape&_)%list_elem_of_bind
      (to'&(p'&Heq)%Hshape&_)%list_elem_of_bind.
    by injection Heq.
  - intros to to' a _ _ (p&->)%Hshape (p'&Heq)%Hshape. by injection Heq.
  - intros to _. destruct (decide (fr ≠ to)); [|apply NoDup_nil_2].
    apply NoDup_bind; [|intros p _; apply NoDup_singleton|done].
    intros p p' a _ _ ->%list_elem_of_singleton Heq%list_elem_of_singleton.
    by injection Heq.
  - done.
Qed.

(** X16. Over object lists without repetition the grounding lists no action
    twice, so [actions] lists every enabled action once. *)
Theorem get_actions_NoDup (self : AirCargoProblem) (st : State)
    (cargos planes airports : list string) :
  NoDup cargos → NoDup planes → NoDup airports →
  NoDup (get_actions cargos planes airports) ∧
  (actions_list self = get_actions cargos planes airports → NoDup (actions self st)).
Proof.
  intros Hcs Hps Haps.
  assert (NoDup (get_actions cargos planes airports)) as Hnd.
  { unfold get_actions. apply NoDup_app. split_and!.
    - unfold load_actions. apply NoDup_bind3; [|done..].
      intros ?????? [= -> -> ->]. done.
    - intros a (?&?&?&_&_&_&->)%elem_of_load_actions
        [(?&?&?&_&_&_&Heq)%elem_of_unload_actions
        |(?&?&?&_&_&_&_&Heq)%elem_of_fly_actions]%elem_of_app; discriminate Heq.
    - apply NoDup_app. split_and!.
      + unfold unload_actions. apply NoDup_bind3; [|done..].
        intros ?????? [= -> -> ->]. done.
      + intros a (?&?&?&_&_&_&->)%elem_of_unload_actions
          (?&?&?&_&_&_&_&Heq)%elem_of_fly_actions. discriminate Heq.
      + by apply NoDup_fly_actions. }
  split; [done|]. intros Hlist. unfold actions. apply NoDup_filter. by rewrite Hlist.
Qed.

Lemma get_actions_NoDup_witness :
  NoDup (actions p1 (initial_state_TF p1)).
Proof.
  refine (proj2 (get_actions_NoDup p1 (initial_state_TF p1)
                   ["C1"; "C2"] ["P1"; "P2"] ["JFK"; "SFO"] _ _ _) _).
  - by_evaluation.
  - by_evaluation.
  - by_evaluation.
  - by vm_compute.
Defined.
